(** * video-streamer-encoder: the request handler of [server.go]

    A shallow embedding of [handleTranscodeRequest], [transcodeFile] and
    [httpError] together with the parts of the Go standard library they
    call ([regexp], [strconv], [path/filepath], [strings], [os],
    [os/exec], [net/http]), followed by the properties of the handler. *)

From Stdlib Require Import ZArith Ascii String List Bool Lia DecimalString.
From Stdlib Require DecimalPos DecimalZ.
From stdpp Require Import base gmap strings list.

Local Open Scope string_scope.
Local Open Scope list_scope.
Local Open Scope Z_scope.

(** ** Go strings

    A Go [string] is a sequence of bytes; [String.string] (a list of 8-bit
    [ascii]) has the same shape. *)

Module GoString.

Definition is_digit (c : ascii) : bool :=
    (48 <=? nat_of_ascii c)%nat && (nat_of_ascii c <=? 57)%nat.

Definition digit_val (c : ascii) : Z := Z.of_nat (nat_of_ascii c) - 48.

Definition ascii_eqb (a b : ascii) : bool := bool_decide (a = b).

Definition string_eqb (a b : string) : bool := bool_decide (a = b).

  (** [strings.HasPrefix(s, p)] *)
Fixpoint HasPrefix (s p : string) : bool :=
    match p, s with
    | EmptyString, _ => true
    | String _ _, EmptyString => false
    | String a p', String b s' => ascii_eqb a b && HasPrefix s' p'
    end.

  (** [strings.Contains(s, substr)] *)
Fixpoint Contains (s substr : string) : bool :=
    HasPrefix s substr ||
    match s with
    | EmptyString => false
    | String _ s' => Contains s' substr
    end.

  (** [strings.Split(s, "/")]: the elements between the separators; never
      the empty list. *)
Fixpoint split_slash (s : string) : list string :=
    match s with
    | EmptyString => [EmptyString]
    | String c r =>
        if ascii_eqb c "/" then EmptyString :: split_slash r
        else match split_slash r with
             | h :: t => String c h :: t
             | [] => [String c EmptyString]
             end
    end.

  (** [strings.Join(elems, "/")] *)
Definition join_slash (elems : list string) : string := String.concat "/" elems.

  (** [[]byte(msg)] *)
Definition bytes_of (msg : string) : list Byte.byte := list_byte_of_string msg.

  (** [strings.HasSuffix(s, suffix)] *)
Fixpoint HasSuffix (s suffix : string) : bool :=
    string_eqb s suffix ||
    match s with
    | EmptyString => false
    | String _ s' => HasSuffix s' suffix
    end.

  (** [strings.FieldsFunc(s, f)]: the maximal runs of characters that do
      not satisfy [f]; no field is empty. *)
Fixpoint FieldsFunc (f : ascii -> bool) (s : string) : list string :=
    match s with
    | EmptyString => []
    | String c r =>
        if f c then FieldsFunc f r
        else match r with
             | EmptyString => [String c EmptyString]
             | String c' _ =>
                 if f c' then String c EmptyString :: FieldsFunc f r
                 else match FieldsFunc f r with
                      | h :: t => String c h :: t
                      | [] => [String c EmptyString]
                      end
             end
    end.

End GoString.

Import GoString.

(** ** [regexp]: the route pattern

    The handler is registered with the compiled pattern [^/(\d+)p/(.+)$].
    [\d] is an ASCII digit and is greedy; the character that follows the
    digits has to be the letter p, so the first group is the whole run of
    digits. [.] matches every character but a line feed and [$] (without
    the multi-line flag) only matches at the end of the text. *)

Module Route.

Fixpoint span_digits (s : string) : string * string :=
    match s with
    | EmptyString => (EmptyString, EmptyString)
    | String c r =>
        if is_digit c
        then let '(d, t) := span_digits r in (String c d, t)
        else (EmptyString, s)
    end.

Fixpoint has_newline (s : string) : bool :=
    match s with
    | EmptyString => false
    | String c r => ascii_eqb c "010" || has_newline r
    end.

  (** [urlRegex.FindStringSubmatch(reqPath)]: [None] is the nil slice, and
      [Some (w, f)] the slice [[reqPath; w; f]] of length 3. *)
Definition FindStringSubmatch (reqPath : string) : option (string * string) :=
    match reqPath with
    | String "/" rest =>
        match span_digits rest with
        | (String d ds, String "p" (String "/" (String f fs))) =>
            if has_newline (String f fs) then None
            else Some (String d ds, String f fs)
        | _ => None
        end
    | _ => None
    end.

End Route.

(** ** [strconv] *)

Module Strconv.

Definition maxInt : Z := 2 ^ 63 - 1.
Definition minInt : Z := - 2 ^ 63.

  (** The digits of an unsigned decimal numeral, most significant first;
      [None] on a character that is not a digit. *)
Fixpoint parse_digits (acc : Z) (s : string) : option Z :=
    match s with
    | EmptyString => Some acc
    | String c r =>
        if is_digit c then parse_digits (10 * acc + digit_val c) r else None
    end.

  (** [strconv.Atoi] on a 64-bit platform: an optional sign, at least one
      digit, and a range error when the value does not fit an [int]. *)
Definition Atoi (s : string) : option Z :=
    let '(neg, body) :=
      match s with
      | String "-" r => (true, r)
      | String "+" r => (false, r)
      | _ => (false, s)
      end in
    match body with
    | EmptyString => None
    | _ =>
        match parse_digits 0 body with
        | None => None
        | Some v =>
            let v := if neg : bool then - v else v in
            if (minInt <=? v) && (v <=? maxInt) then Some v else None
        end
    end.

  (** [strconv.Itoa] *)
Definition Itoa (n : Z) : string := NilZero.string_of_int (Z.to_int n).

End Strconv.

(** ** [path/filepath] and [path] on a Unix system *)

Module Filepath.

  (** One element of the path read by [Clean]; [out] holds the elements
      written so far, the last one first. An empty element and [.] are
      skipped; [..] removes the last real element, is kept in front of a
      relative path that has none left, and is dropped at the root. *)
Definition clean_elem (rooted : bool) (out : list string) (e : string) : list string :=
    if string_eqb e "" then out
    else if string_eqb e "." then out
    else if string_eqb e ".." then
      match out with
      | top :: rest => if string_eqb top ".." then e :: out else rest
      | [] => if rooted then [] else [e]
      end
    else e :: out.

  (** [filepath.Clean] *)
Definition Clean (path : string) : string :=
    match path with
    | EmptyString => "."
    | String c _ =>
        let rooted := ascii_eqb c "/" in
        let out := rev (fold_left (clean_elem rooted) (split_slash path) []) in
        if rooted then String "/" (join_slash out)
        else match out with
             | [] => "."
             | _ => join_slash out
             end
    end.

  (** [filepath.Join]: the elements from the first non-empty one on are
      joined with the separator and the result is cleaned. *)
Fixpoint Join (elem : list string) : string :=
    match elem with
    | [] => ""
    | e :: rest => if string_eqb e "" then Join rest else Clean (join_slash elem)
    end.

  (** [path.IsAbs] *)
Definition IsAbs (path : string) : bool :=
    match path with
    | String "/" _ => true
    | _ => false
    end.

End Filepath.

Import Route Strconv Filepath.

(** ** The world around the handler

    The file system is a finite map from cleaned path names to nodes. A
    regular file carries its bytes and whether the encoder that wrote it
    has finished it; the flag is ghost state, no operation of the handler
    reads it. Directory parents are not tracked. *)

Inductive node :=
  | Dir
  | File (complete : bool) (content : list Byte.byte).

(** The encoder as an operating-system process: [Running out] writes to
    the file [out]; a [Terminated] process has exited or has been killed
    and stays a zombie until it is [Reaped] by [Wait]. *)
Inductive proc_state :=
  | NotStarted
  | Running (out : string)
  | Terminated
  | Reaped.

Inductive os_error := ErrNotExist | ErrOther.

(** The error of one [reader.Read]: [ErrEOF clean] is [io.EOF], where
    [clean] (ghost, the handler cannot see it) tells whether the encoder
    closed its output after finishing the artifact or died before. *)
Inductive read_err := ErrNil | ErrEOF (clean : bool) | ErrRead.

(** One iteration of the pump as the environment decides it: whether
    [ctx.Done()] is closed at the [select], how many bytes the pipe has
    ready, the error of the read and whether the write to the client
    succeeds. *)
Record step := {
  ctx_done : bool;
  rd_avail : nat;
  rd_err : read_err;
  wr_ok : bool
}.

(** Everything the handler cannot control during one request. *)
Record env := {
  open_fault : string -> bool;   (* os.Open fails, not with ENOENT *)
  mkdir_fault : string -> bool;  (* os.MkdirAll fails *)
  stat_fault : string -> bool;   (* os.Stat fails, not with ENOENT *)
  has_flusher : bool;            (* rw implements http.Flusher *)
  pipe_fault : bool;             (* cmd.StdoutPipe fails *)
  start_fault : bool;            (* cmd.Start fails *)
  enc_partial : list Byte.byte;  (* the output file while the encoder runs *)
  enc_artifact : list Byte.byte; (* the output file of a finished encoder *)
  enc_live : list Byte.byte;     (* all the encoder ever writes to stdout *)
  schedule : list step;          (* the iterations of the pump *)
  ctx_wins : bool                (* the final select takes <-ctx.Done() *)
}.

Inductive event :=
  | EOpen (name : string)
  | EClose (name : string)
  | EMkdirAll (name : string)
  | EStat (name : string)
  | ERemove (name : string)
  | EServeFile (name : string)
  | ESetHeader (key value : string)
  | EWriteHeader (code : Z)
  | EWrite (b : list Byte.byte) (ok : bool)
  | EFlush
  | EStdoutPipe
  | EStart (argv : list string)
  | ERead (n : nat)
  | ECloseReader
  | EKill
  | EWait
  | ELog (msg : string).

(** [http.ResponseWriter]. [r_header] is the header map of [Header()];
    [r_status] and [r_sent] are the status line and the headers net/http
    has put on the wire, fixed by the first [WriteHeader] (or [Write]);
    [r_served] names the file the response was delegated to through
    [http.ServeFile]. *)
Record response := {
  r_header : gmap string string;
  r_status : option Z;
  r_sent : gmap string string;
  r_body : list Byte.byte;
  r_flushes : nat;
  r_served : option string
}.

Record state := {
  st_fs : gmap string node;
  st_resp : response;
  st_proc : proc_state;
  st_pipe : list Byte.byte;
  st_trace : list event
}.

Definition fresh_response : response :=
  {| r_header := ∅; r_status := None; r_sent := ∅; r_body := [];
     r_flushes := 0; r_served := None |}.

Definition initial (fs : gmap string node) : state :=
  {| st_fs := fs; st_resp := fresh_response; st_proc := NotStarted;
     st_pipe := []; st_trace := [] |}.

(** ** The handler monad

    A computation either returns ([Done]) or stays blocked for ever
    ([Blocked], the final [select] of the handler with neither channel
    ready); both carry the state reached. *)

Inductive res (A : Type) :=
  | Done (a : A) (s : state)
  | Blocked (s : state).
Arguments Done {A} a s.
Arguments Blocked {A} s.

Definition M (A : Type) : Type := state -> res A.

Definition ret {A} (a : A) : M A := fun s => Done a s.

Definition bind {A B} (m : M A) (k : A -> M B) : M B :=
  fun s => match m s with
           | Done a s' => k a s'
           | Blocked s' => Blocked s'
           end.

Definition block {A} : M A := fun s => Blocked s.

Declare Scope go_scope.
Delimit Scope go_scope with go.
Notation "x <- m ;; k" := (bind m (fun x => k))
  (at level 100, m at next level, k at level 200, right associativity) : go_scope.
Notation "m ;; k" := (bind m (fun _ => k))
  (at level 100, k at level 200, right associativity) : go_scope.

(** [defer d] around [body]: [d] runs when [body] returns, and not when
    it never does. *)
Definition defer {A} (d : M unit) (body : M A) : M A :=
  (a <- body ;; d ;; ret a)%go.

Definition final_state {A} (r : res A) : state :=
  match r with Done _ s => s | Blocked s => s end.

Definition returned {A} (r : res A) : bool :=
  match r with Done _ _ => true | Blocked _ => false end.

Definition emit (e : event) : M unit :=
  fun s => Done tt {| st_fs := st_fs s; st_resp := st_resp s; st_proc := st_proc s;
                      st_pipe := st_pipe s; st_trace := st_trace s ++ [e] |}.

Definition set_fs (f : gmap string node -> gmap string node) : M unit :=
  fun s => Done tt {| st_fs := f (st_fs s); st_resp := st_resp s; st_proc := st_proc s;
                      st_pipe := st_pipe s; st_trace := st_trace s |}.

Definition set_resp (f : response -> response) : M unit :=
  fun s => Done tt {| st_fs := st_fs s; st_resp := f (st_resp s); st_proc := st_proc s;
                      st_pipe := st_pipe s; st_trace := st_trace s |}.

Definition set_proc (f : proc_state -> proc_state) : M unit :=
  fun s => Done tt {| st_fs := st_fs s; st_resp := st_resp s; st_proc := f (st_proc s);
                      st_pipe := st_pipe s; st_trace := st_trace s |}.

Definition set_pipe (p : list Byte.byte) : M unit :=
  fun s => Done tt {| st_fs := st_fs s; st_resp := st_resp s; st_proc := st_proc s;
                      st_pipe := p; st_trace := st_trace s |}.

Definition get : M state := fun s => Done s s.

Definition log_Printf (msg : string) : M unit := emit (ELog msg).

(** ** Configuration *)

Record JSONConfig := {
  Host : string;
  Port : Z;
  InputDir : string;
  OutputDir : string;
  Widths : list Z
}.

(** ** Directories

    [dir_chain "" (split_slash name)] lists the directories [os.MkdirAll]
    has to find or make for a cleaned [name], parents first: for
    [/srv/cache/480] these are [/srv], [/srv/cache] and [/srv/cache/480]. *)

Fixpoint dir_chain (acc : string) (segs : list string) : list string :=
  match segs with
  | [] => []
  | x :: r =>
      (if string_eqb x "" then [] else [acc +:+ x])
      ++ dir_chain (acc +:+ x +:+ "/") r
  end.

Fixpoint mkdirs (fs : gmap string node) (chain : list string)
    : bool * gmap string node :=
  match chain with
  | [] => (true, fs)
  | p :: r =>
      match fs !! p with
      | Some (File _ _) => (false, fs)
      | Some Dir => mkdirs fs r
      | None => mkdirs (<[p := Dir]> fs) r
      end
  end.

(** ** The collaborators: [os], [os/exec], [net/http] *)

Section Handler.

Variable config : JSONConfig.
Variable e : env.

Local Open Scope go_scope.

  (** [os.Open]: [None] is the nil error. *)
Definition os_Open (name : string) : M (option os_error) :=
    emit (EOpen name) ;;
    s <- get ;;
    ret (if open_fault e name then Some ErrOther
         else match st_fs s !! name with
              | Some _ => None
              | None => Some ErrNotExist
              end).

Definition file_Close (name : string) : M unit := emit (EClose name).

  (** [os.MkdirAll]: [true] is the nil error. The directory and its
      missing parents are created from the top; an existing directory is
      left alone and a regular file in the way is an error. A fault of the
      environment fails the call before anything is created. *)
Definition os_MkdirAll (name : string) : M bool :=
    emit (EMkdirAll name) ;;
    s <- get ;;
    if mkdir_fault e name then ret false
    else
      let '(made, fs) := mkdirs (st_fs s) (dir_chain "" (split_slash name)) in
      set_fs (fun _ => fs) ;;
      ret made.

  (** [os.Stat], of which the handler only keeps the error. *)
Definition os_Stat (name : string) : M (option os_error) :=
    emit (EStat name) ;;
    s <- get ;;
    ret (if stat_fault e name then Some ErrOther
         else match st_fs s !! name with
              | Some _ => None
              | None => Some ErrNotExist
              end).

  (** [os.Remove]; the handler drops its error. *)
Definition os_Remove (name : string) : M unit :=
    emit (ERemove name) ;;
    set_fs (delete name).

  (** [rw.Header().Set] *)
Definition Header_Set (key value : string) : M unit :=
    emit (ESetHeader key value) ;;
    set_resp (fun r =>
      {| r_header := <[key := value]> (r_header r); r_status := r_status r;
         r_sent := r_sent r; r_body := r_body r; r_flushes := r_flushes r;
         r_served := r_served r |}).

  (** The status line and the header map go on the wire once: a second
      [WriteHeader] is superfluous and changes nothing. *)
Definition commit (code : Z) (r : response) : response :=
    match r_status r with
    | Some _ => r
    | None =>
        {| r_header := r_header r; r_status := Some code;
           r_sent := r_header r; r_body := r_body r; r_flushes := r_flushes r;
           r_served := r_served r |}
    end.

  (** [rw.WriteHeader] *)
Definition WriteHeader (code : Z) : M unit :=
    emit (EWriteHeader code) ;;
    set_resp (commit code).

  (** [rw.Write]: sends the header with status 200 first when none was
      sent; [ok] is whether the client takes the bytes. *)
Definition rw_Write (b : list Byte.byte) (ok : bool) : M bool :=
    emit (EWrite b ok) ;;
    set_resp (commit 200) ;;
    (if ok then
       set_resp (fun r =>
         {| r_header := r_header r; r_status := r_status r;
            r_sent := r_sent r; r_body := r_body r ++ b; r_flushes := r_flushes r;
            r_served := r_served r |})
     else ret tt) ;;
    ret ok.

  (** [flusher.Flush] *)
Definition Flush : M unit :=
    emit EFlush ;;
    set_resp (fun r =>
      {| r_header := r_header r; r_status := r_status r;
         r_sent := r_sent r; r_body := r_body r; r_flushes := S (r_flushes r);
         r_served := r_served r |}).

  (** [http.ServeFile]: the response is handed over to the static file
      server of net/http with the file [name], and the handler makes no
      call on the writer after it. What the file server then answers is
      not recorded in this state; it is [ServeFile_answer] below. *)
Definition http_ServeFile (name : string) : M unit :=
    emit (EServeFile name) ;;
    set_resp (fun r =>
      {| r_header := r_header r; r_status := r_status r;
         r_sent := r_sent r; r_body := r_body r; r_flushes := r_flushes r;
         r_served := Some name |}).

  (** [httpError] *)
Definition httpError (statusCode : Z) (msg : string) : M unit :=
    Header_Set "Content-Type" "text/plain; charset=utf-8" ;;
    WriteHeader statusCode ;;
    rw_Write (bytes_of msg) true ;;
    ret tt.

  (** The command line of [exec.CommandContext] in [transcodeFile]. *)
Definition ffmpeg_argv (inputFile : string) (width : Z) (outputFile : string) : list string :=
    ["ffmpeg"; "-y"; "-i"; inputFile;
     "-filter_complex";
     "scale=" +:+ Itoa width +:+ ":-2[mid];[mid]split=2[out1][out2]";
     "-map"; "0:a"; "-c:a"; "aac"; "-b:a"; "128k";
     "-map"; "[out1]"; "-c:v"; "libx265"; "-b:v"; "1000k";
     "-movflags"; "+faststart"; outputFile;
     "-map"; "0:a"; "-c:a"; "aac"; "-b:a"; "128k";
     "-map"; "[out2]"; "-c:v"; "libx265"; "-b:v"; "1000k";
     "-movflags"; "isml+frag_keyframe"; "-f"; "ismv"; "-"].

  (** [cmd.Start]: a started encoder opens its output file, which from then
      on exists under that name with unfinished content, and has its whole
      live stream ahead of it. Whether the directory of the name exists is
      not looked at: the handler makes the output directory of the width
      only, so this is the behaviour of the encoder for a file name that
      is a single name. *)
Definition cmd_Start (argv : list string) (outputFile : string) : M bool :=
    emit (EStart argv) ;;
    if start_fault e then ret false
    else
      set_proc (fun _ => Running outputFile) ;;
      set_fs (insert outputFile (File false (enc_partial e))) ;;
      set_pipe (enc_live e) ;;
      ret true.

  (** [transcodeFile]: [None] is the nil error. *)
Definition transcodeFile (inputFile : string) (width : Z) (outputFile : string)
    : M (option string) :=
    emit EStdoutPipe ;;
    if pipe_fault e then ret (Some "error getting stdout pipe")
    else
      started <- cmd_Start (ffmpeg_argv inputFile width outputFile) outputFile ;;
      if started : bool then ret None else ret (Some "error starting ffmpeg").

  (** [cmd.Process.Kill] *)
Definition Process_Kill : M unit :=
    emit EKill ;;
    set_proc (fun p => match p with Running _ => Terminated | _ => p end).

  (** [cmd.Wait]: reaps a terminated process; on a process that still runs
      it waits for the exit. *)
Definition cmd_Wait : M unit :=
    emit EWait ;;
    s <- get ;;
    match st_proc s with
    | Running _ => block
    | Terminated => set_proc (fun _ => Reaped)
    | _ => ret tt
    end.

Definition reader_Close : M unit := emit ECloseReader.

  (** What the end of the live stream means for the encoder: it has left,
      and when it left cleanly its output file is finished. *)
Definition encoder_exit (err : read_err) : M unit :=
    match err with
    | ErrEOF clean =>
        s <- get ;;
        match st_proc s with
        | Running out =>
            (if clean then set_fs (insert out (File true (enc_artifact e))) else ret tt) ;;
            set_proc (fun _ => Terminated)
        | _ => ret tt
        end
    | _ => ret tt
    end.

  (** [buf := make([]byte, 16*1024)] *)
Definition bufsize : nat := 16 * 1024.

  (** [reader.Read(buf)]: the next bytes of the pipe, as many as are
      ready and fit the buffer; the result is [buf[:n]]. *)
Definition reader_Read (avail : nat) (err : read_err) : M (list Byte.byte) :=
    s <- get ;;
    let n := Nat.min (Nat.min avail bufsize) (length (st_pipe s)) in
    emit (ERead n) ;;
    set_pipe (drop n (st_pipe s)) ;;
    encoder_exit err ;;
    ret (take n (st_pipe s)).

  (** ** The stream pump

      The goroutine of the handler, one [step] of the schedule for each
      turn of its [for] loop. *)

Inductive pump_result :=
    | PumpEOF          (* the read returned io.EOF *)
    | PumpReadError    (* the read returned another error *)
    | PumpWriteError   (* rw.Write failed *)
    | PumpCancelled    (* <-ctx.Done() at the select *)
    | PumpWaiting.     (* still inside reader.Read: the schedule is used up *)

Fixpoint pump (transcodedFilePath : string) (sched : list step) : M pump_result :=
    match sched with
    | [] => ret PumpWaiting
    | st :: rest =>
        if ctx_done st then ret PumpCancelled
        else
          chunk <- reader_Read (rd_avail st) (rd_err st) ;;
          written <-
            match chunk with
            | [] => ret true
            | _ :: _ =>
                ok <- rw_Write chunk (wr_ok st) ;;
                if ok : bool then Flush ;; ret true
                else log_Printf "Error writing to client" ;; ret false
            end ;;
          if written : bool then
            match rd_err st with
            | ErrNil => pump transcodedFilePath rest
            | ErrEOF _ => ret PumpEOF
            | ErrRead =>
                os_Remove transcodedFilePath ;;
                log_Printf "Error reading transcoded data" ;;
                ret PumpReadError
            end
          else ret PumpWriteError
    end.

  (** The [select] at the end of the handler: it returns through
      [<-ctx.Done()] or through [<-doneCh], and waits while the pump is
      inside a read and the context is alive. The schedule is what the
      pump does up to the moment the handler returns; what the goroutine
      does after that, when its pending read fails on the pipe the
      deferred [reader.Close] has closed, is not part of the run of the
      handler. *)
Definition final_select (p : pump_result) : M unit :=
    if ctx_wins e then
      log_Printf "Client disconnected or request cancelled. Cleaning up..."
    else
      match p with
      | PumpWaiting => block
      | _ => ret tt
      end.

  (** [for _, val := range config.Widths] *)
Fixpoint widthFound (width : Z) (widths : list Z) : bool :=
    match widths with
    | [] => false
    | val :: rest => if val =? width then true else widthFound width rest
    end.

  (** ** [handleTranscodeRequest] *)

Definition handleTranscodeRequest (reqPath : string) : M unit :=
    match FindStringSubmatch reqPath with
    | None => httpError 404 "Not Found"
    | Some (widthStr, filename) =>
    match Atoi widthStr with
    | None => httpError 400 "Invalid Width"
    | Some width =>
    if negb (widthFound width (Widths config)) then httpError 400 "Invalid Width"
    else
    let filename := Clean filename in
    if Contains filename "../" || IsAbs filename then httpError 400 "Invalid file path"
    else
    let origFilePath := Join [InputDir config; filename] in
    err <- os_Open origFilePath ;;
    match err with
    | Some ErrNotExist => httpError 404 "File Not Found"
    | Some ErrOther =>
        log_Printf "Error opening original file" ;;
        httpError 500 "Internal Server Error"
    | None =>
    defer (file_Close origFilePath) (
    let outputDir := Join [OutputDir config; Itoa width] in
    made <- os_MkdirAll outputDir ;;
    if negb made then
      log_Printf "Error creating output directory" ;;
      httpError 500 "Could not create output directory"
    else
    let transcodedFilePath := Join [outputDir; filename] in
    err <- os_Stat transcodedFilePath ;;
    match err with
    | None => http_ServeFile transcodedFilePath
    | Some ErrOther =>
        log_Printf "Error stat transcoded file" ;;
        httpError 500 "Internal Server Error"
    | Some ErrNotExist =>
    if negb (has_flusher e) then httpError 500 "Streaming not supported"
    else
    Header_Set "Content-Type" "video/mp4" ;;
    Header_Set "Transfer-Encoding" "chunked" ;;
    WriteHeader 200 ;;
    err <- transcodeFile origFilePath width transcodedFilePath ;;
    match err with
    | Some _ =>
        log_Printf "Error starting transcoding" ;;
        httpError 500 "Failed to start transcoding"
    | None =>
    defer (Process_Kill ;; cmd_Wait) (
    defer reader_Close (
    p <- pump transcodedFilePath (schedule e) ;;
    final_select p))
    end
    end)
    end
    end
    end.

End Handler.

#[global] Instance pump_result_eq_dec : EqDecision pump_result.
Proof. solve_decision. Defined.

(** One request against a file system. *)
Definition serve (config : JSONConfig) (e : env) (fs : gmap string node)
    (reqPath : string) : res unit :=
  handleTranscodeRequest config e reqPath (initial fs).

(** ** Names for what the handler computes on the way

    [validate] is the outcome of the checks at the head of the handler on
    a request path: the width and the cleaned file name it goes on with.
    The three paths are the local variables of the same names. *)

Definition validate (config : JSONConfig) (reqPath : string) : option (Z * string) :=
  match FindStringSubmatch reqPath with
  | None => None
  | Some (widthStr, raw) =>
      match Atoi widthStr with
      | None => None
      | Some width =>
          if widthFound width (Widths config) then
            if Contains (Clean raw) "../" || IsAbs (Clean raw) then None
            else Some (width, Clean raw)
          else None
      end
  end.

Definition origFilePath (config : JSONConfig) (filename : string) : string :=
  Join [InputDir config; filename].

Definition outputDir (config : JSONConfig) (width : Z) : string :=
  Join [OutputDir config; Itoa width].

Definition transcodedFilePath (config : JSONConfig) (width : Z) (filename : string) : string :=
  Join [outputDir config width; filename].

(** The outcome of [os.MkdirAll] on a file system. *)
Definition made_dirs (fs : gmap string node) (name : string) : bool * gmap string node :=
  mkdirs fs (dir_chain "" (split_slash name)).

(** The response and the trace [httpError] leaves on a fresh writer. *)
Definition plain_text : gmap string string :=
  {[ "Content-Type" := "text/plain; charset=utf-8" ]}.

Definition error_response (code : Z) (msg : string) : response :=
  {| r_header := plain_text; r_status := Some code; r_sent := plain_text;
     r_body := bytes_of msg; r_flushes := 0; r_served := None |}.

Definition error_trace (code : Z) (msg : string) : list event :=
  [ESetHeader "Content-Type" "text/plain; charset=utf-8";
   EWriteHeader code; EWrite (bytes_of msg) true].

(** The headers of a streamed response. *)
Definition stream_header : gmap string string :=
  <["Transfer-Encoding" := "chunked"]> (<["Content-Type" := "video/mp4"]> ∅).

(** The outcome of a request that is turned down before anything is
    touched: a plain-text error on an unchanged file system. *)
Definition rejected (fs : gmap string node) (code : Z) (msg : string) : res unit :=
  Done tt {| st_fs := fs; st_resp := error_response code msg;
             st_proc := NotStarted; st_pipe := [];
             st_trace := error_trace code msg |}.

(** The state in which the pump starts: the output directory exists (the
    file system is [fs'] then), nothing was found under the canonical
    name, the status line and the streaming headers are out, and the
    encoder has just been started on the canonical name. *)
Definition generating (config : JSONConfig) (e : env) (fs' : gmap string node)
    (width : Z) (filename : string) : state :=
  let orig := origFilePath config filename in
  let canon := transcodedFilePath config width filename in
  {| st_fs := <[canon := File false (enc_partial e)]> fs';
     st_resp := {| r_header := stream_header; r_status := Some 200;
                   r_sent := stream_header; r_body := []; r_flushes := 0;
                   r_served := None |};
     st_proc := Running canon;
     st_pipe := enc_live e;
     st_trace := [EOpen orig; EMkdirAll (outputDir config width); EStat canon;
                  ESetHeader "Content-Type" "video/mp4";
                  ESetHeader "Transfer-Encoding" "chunked";
                  EWriteHeader 200; EStdoutPipe;
                  EStart (ffmpeg_argv orig width canon)] |}.

(** What the handler does once the pump has come to a result: the final
    [select] and the deferred calls, last registered first. *)
Definition finish (e : env) (orig : string) (r : res pump_result) : res unit :=
  match r with
  | Blocked s => Blocked s
  | Done p s =>
      (final_select e p ;; reader_Close ;; Process_Kill ;; cmd_Wait ;;
       file_Close orig)%go s
  end.

(** A turn of the loop that moves data and goes round again: the context
    is alive, the read has no error and the client takes the bytes. *)
Definition flowing (st : step) : bool :=
  negb (ctx_done st) && wr_ok st &&
  match rd_err st with ErrNil => true | _ => false end.

(** A schedule on which the pump runs into a clean end of the stream. *)
Fixpoint completes (sched : list step) : bool :=
  match sched with
  | [] => false
  | st :: rest =>
      negb (ctx_done st) && wr_ok st &&
      match rd_err st with
      | ErrNil => completes rest
      | ErrEOF clean => clean
      | ErrRead => false
      end
  end.

(** Every successful write in a trace is followed at once by a flush. *)
Fixpoint flushed (evs : list event) : bool :=
  match evs with
  | [] => true
  | EWrite _ true :: rest =>
      match rest with
      | EFlush :: _ => flushed rest
      | _ => false
      end
  | _ :: rest => flushed rest
  end.

(** The byte slices a trace hands to the client, and those it reads. *)
Fixpoint written (evs : list event) : list (list Byte.byte) :=
  match evs with
  | [] => []
  | EWrite b true :: rest => b :: written rest
  | _ :: rest => written rest
  end.

Definition is_start (ev : event) : bool :=
  match ev with EStart _ => true | _ => false end.

Definition is_remove (ev : event) : bool :=
  match ev with ERemove _ => true | _ => false end.

(** The response of a request whose encoder could not be started: the
    status line 200 and the streaming headers went out before
    [transcodeFile] was called, and the header map was changed after. *)
Definition spawn_failed_response : response :=
  {| r_header := <["Content-Type" := "text/plain; charset=utf-8"]> stream_header;
     r_status := Some 200; r_sent := stream_header;
     r_body := bytes_of "Failed to start transcoding"; r_flushes := 0;
     r_served := None |}.

(** One turn of the loop of the pump on its own: [None] when the loop
    goes round again, the result of the pump when it stops. *)
Definition turn (e : env) (transcodedFilePath : string) (st : step)
    : M (option pump_result) :=
  (if ctx_done st then ret (Some PumpCancelled)
   else
     chunk <- reader_Read e (rd_avail st) (rd_err st) ;;
     match chunk with
     | [] =>
         match rd_err st with
         | ErrNil => ret None
         | ErrEOF _ => ret (Some PumpEOF)
         | ErrRead =>
             os_Remove transcodedFilePath ;;
             log_Printf "Error reading transcoded data" ;;
             ret (Some PumpReadError)
         end
     | _ :: _ =>
         ok <- rw_Write chunk (wr_ok st) ;;
         if ok : bool then
           Flush ;;
           match rd_err st with
           | ErrNil => ret None
           | ErrEOF _ => ret (Some PumpEOF)
           | ErrRead =>
               os_Remove transcodedFilePath ;;
               log_Printf "Error reading transcoded data" ;;
               ret (Some PumpReadError)
           end
         else
           log_Printf "Error writing to client" ;;
           ret (Some PumpWriteError)
     end)%go.

(** The bytes one read takes from the pipe. *)
Definition read_size (st : step) (s : state) : nat :=
  Nat.min (Nat.min (rd_avail st) bufsize) (length (st_pipe s)).

(** The response that has been handed to [http.ServeFile] on [name]. *)
Definition served_response (name : string) : response :=
  {| r_header := ∅; r_status := None; r_sent := ∅; r_body := [];
     r_flushes := 0; r_served := Some name |}.

(** ** Cleaned paths as lists of elements

    What [Clean] computes, taken apart: whether the path is rooted, the
    elements it keeps, and the string it builds from the two. *)

Definition rooted (path : string) : bool :=
  match path with
  | String c _ => ascii_eqb c "/"
  | EmptyString => false
  end.

Definition elems (path : string) : list string :=
  rev (fold_left (clean_elem (rooted path)) (split_slash path) []).

Definition render (abs : bool) (l : list string) : string :=
  if abs then String "/" (join_slash l)
  else match l with
       | [] => "."
       | _ => join_slash l
       end.

Fixpoint has_slash (s : string) : bool :=
  match s with
  | EmptyString => false
  | String c r => ascii_eqb c "/" || has_slash r
  end.

(** A file or directory name: not empty, not [.] or [..], no separator. *)
Definition is_name (x : string) : bool :=
  negb (string_eqb x "") && negb (string_eqb x ".") &&
  negb (string_eqb x "..") && negb (has_slash x).

(** The elements of a cleaned relative file name. *)
Definition names (filename : string) : list string :=
  if string_eqb filename "." then [] else split_slash filename.

Fixpoint all_digits (s : string) : bool :=
  match s with
  | EmptyString => true
  | String c r => is_digit c && all_digits r
  end.

(** The elements of a cleaned path: [..] in front (none on a rooted
    path), names after. *)
Definition cleaned (abs : bool) (l : list string) : Prop :=
  exists k ns,
    l = repeat ".." k ++ ns /\
    Forall (fun x => is_name x = true) ns /\
    (abs = true -> k = 0%nat).

(** The characters [Itoa] writes. *)
Fixpoint sign_or_digits (s : string) : bool :=
  match s with
  | EmptyString => true
  | String c r => (is_digit c || ascii_eqb c "-") && sign_or_digits r
  end.

(** The calls the pump makes: reads, writes, flushes, the removal of the
    artifact and log lines. *)
Definition is_pump_event (ev : event) : bool :=
  match ev with
  | ERead _ | EWrite _ _ | EFlush | ERemove _ | ELog _ => true
  | _ => false
  end.

Definition count_starts (evs : list event) : nat :=
  length (filter (fun ev => is_start ev = true) evs).

(** ** How much the pump moves

    What the reads of a run of turns take from the pipe at most: each
    read takes the bytes that are ready, as far as they fit the buffer. *)
Definition capacity (turns : list step) : nat :=
  list_sum (map (fun st => Nat.min (rd_avail st) bufsize) turns).

(** The sizes of the reads in a trace. *)
Fixpoint reads (evs : list event) : list nat :=
  match evs with
  | [] => []
  | ERead n :: rest => n :: reads rest
  | _ :: rest => reads rest
  end.

(** The turns of a schedule up to the first one that does not go round
    again, that one included. *)
Fixpoint rounds (sched : list step) : list step :=
  match sched with
  | [] => []
  | st :: rest => if flowing st then st :: rounds rest else [st]
  end.

(** ** What [http.ServeFile] answers

    The static file server of net/http on a response handed to it with
    the file [name], for a [GET] request that carries no [Range] and no
    conditional header; [urlPath] is [req.URL.Path]. [ServeFile] refuses
    a URL path with an element [..], redirects one that ends in
    [/index.html], and then opens [name]: a directory is redirected to
    its name with a slash or answered with its index, a regular file is
    sent as it is, with status 200. *)

Definition isSlashRune (c : ascii) : bool :=
  ascii_eqb c "/" || ascii_eqb c "092".

Definition containsDotDot (v : string) : bool :=
  if negb (Contains v "..") then false
  else existsb (fun ent => string_eqb ent "..") (FieldsFunc isSlashRune v).

Inductive static_answer :=
  | StaticError (code : Z) (msg : string)
  | StaticRedirect
  | StaticDirectory
  | StaticContent (content : list Byte.byte).

Definition ServeFile_answer (fs : gmap string node) (urlPath name : string)
    : static_answer :=
  if containsDotDot urlPath then StaticError 400 "invalid URL path"
  else if HasSuffix urlPath "/index.html" then StaticRedirect
  else match fs !! name with
       | None => StaticError 404 "404 page not found"
       | Some Dir => if HasSuffix urlPath "/" then StaticDirectory else StaticRedirect
       | Some (File _ content) => StaticContent content
       end.

(** ** Start-up and shutdown: [main]

    [main] as a sequence of calls. The environment supplies the value of
    the [-config] flag, the contents of files, the outcome of
    [json.Unmarshal], whether [ListenAndServe] fails, whether a
    termination signal arrives and whether [Shutdown] fails. Of a
    [log.Fatalf] the fixed text is kept, the error printed after it is
    not. The pattern of the route is a constant that compiles. *)

Inductive boot_event :=
  | BReadFile (name : string)
  | BFatal (msg : string)
  | BHandleFunc (pattern : string)
  | BNotify
  | BLog (msg : string)
  | BListen (addr : string)
  | BShutdown (seconds : Z).

(** How the process ends: [log.Fatalf] exits with status 1, a return
    from [main] with status 0, and without a signal it serves for ever. *)
Inductive boot_end := Exit (status : Z) | Serving.

Record boot_env := {
  flag_config : option string;
  read_file : string -> option (list Byte.byte);
  unmarshal : list Byte.byte -> option JSONConfig;
  listen_fails : bool;
  signal_arrives : bool;
  shutdown_fails : bool
}.

(** [fmt.Sprintf("%s:%d", config.Host, config.Port)] *)
Definition listen_addr (config : JSONConfig) : string :=
  Host config +:+ ":" +:+ Itoa (Port config).

Definition main (b : boot_env) : list boot_event * boot_end :=
  let configFile :=
    match flag_config b with
    | Some name => name
    | None => "config.json"
    end in
  match read_file b configFile with
  | None =>
      ([BReadFile configFile; BFatal "Config file not found or unreadable"], Exit 1)
  | Some configData =>
      match unmarshal b configData with
      | None => ([BReadFile configFile; BFatal "Invalid Config file"], Exit 1)
      | Some config =>
          let up := [BReadFile configFile; BHandleFunc "/"; BNotify;
                     BLog ("Server starting on " +:+ listen_addr config +:+ "...");
                     BListen (listen_addr config)] in
          if listen_fails b then (up ++ [BFatal "ListenAndServe error"], Exit 1)
          else if negb (signal_arrives b) then (up, Serving)
          else
            let down := up ++ [BLog "Shutting down server..."; BShutdown 10] in
            if shutdown_fails b then (down ++ [BFatal "Server Shutdown Failed"], Exit 1)
            else (down ++ [BLog "Server gracefully stopped."], Exit 0)
      end
  end.

Definition is_listen (ev : boot_event) : bool :=
  match ev with BListen _ => true | _ => false end.

(** ** A concrete installation

    The configuration of the README with two widths, a source directory
    that holds one film, and environments in which nothing fails. *)

Module Example.

Definition config : JSONConfig :=
    {| Host := "localhost"; Port := 8000;
       InputDir := "/srv/videos"; OutputDir := "/srv/cache";
       Widths := [480; 720] |}.

Definition film : list Byte.byte := bytes_of "source film".
Definition half : list Byte.byte := bytes_of "ftyp".
Definition whole : list Byte.byte := bytes_of "ftypmoovmdat".
Definition live : list Byte.byte := bytes_of "moofmdatmoofmdat".

Definition disk : gmap string node :=
    {[ "/srv/videos/movie.mp4" := File true film ]}.

  (** The cache holds the film at width 480 and the source is gone. *)
Definition orphan_cache : gmap string node :=
    {[ "/srv/cache/480/movie.mp4" := File true whole ]}.

  (** The disk once the output directory of width 480 is made. *)
Definition disk_480 : gmap string node :=
    snd (made_dirs disk (outputDir config 480)).

  (** The film is on the disk and in the cache. *)
Definition cached : gmap string node :=
    <["/srv/cache/480/movie.mp4" := File true whole]> disk.

  (** The film is in the cache, in the output directory of width 480. *)
Definition warm : gmap string node :=
    <["/srv/cache/480/movie.mp4" := File true whole]> disk_480.

  (** The parent of the input directory is a directory, as it is on every
      real disk. *)
Definition tree : gmap string node :=
    <["/srv" := Dir]> (<["/srv/videos" := Dir]> disk).

Definition data (n : nat) : step :=
    {| ctx_done := false; rd_avail := n; rd_err := ErrNil; wr_ok := true |}.

Definition eof : step :=
    {| ctx_done := false; rd_avail := 0; rd_err := ErrEOF true; wr_ok := true |}.

Definition cancel : step :=
    {| ctx_done := true; rd_avail := 0; rd_err := ErrNil; wr_ok := true |}.

Definition calm (sched : list step) (wins : bool) : env :=
    {| open_fault := fun _ => false; mkdir_fault := fun _ => false;
       stat_fault := fun _ => false; has_flusher := true;
       pipe_fault := false; start_fault := false;
       enc_partial := half; enc_artifact := whole; enc_live := live;
       schedule := sched; ctx_wins := wins |}.

  (** The encoder binary is missing. *)
Definition no_ffmpeg : env :=
    {| open_fault := fun _ => false; mkdir_fault := fun _ => false;
       stat_fault := fun _ => false; has_flusher := true;
       pipe_fault := false; start_fault := true;
       enc_partial := half; enc_artifact := whole; enc_live := live;
       schedule := []; ctx_wins := false |}.

  (** The output directory cannot be made. *)
Definition read_only : env :=
    {| open_fault := fun _ => false; mkdir_fault := fun _ => true;
       stat_fault := fun _ => false; has_flusher := true;
       pipe_fault := false; start_fault := false;
       enc_partial := half; enc_artifact := whole; enc_live := live;
       schedule := []; ctx_wins := false |}.

End Example.

(** * Properties *)

Lemma widthFound_In width widths :
  widthFound width widths = true <-> In width widths.
Proof.
  induction widths as [|val rest IH]; simpl.
  - split; [discriminate | tauto].
  - destruct (Z.eqb_spec val width) as [->|Hne].
    + split; auto.
    + rewrite IH. split; [auto | intros [H|H]; [congruence | exact H]].
Qed.

(** Symbolic execution of the handler: unfold the monad, the
    collaborators and the record projections, and nothing of the
    libraries underneath. *)
Tactic Notation "run" :=
  cbv beta iota zeta delta
    [bind ret block defer emit get set_fs set_resp set_proc set_pipe log_Printf
     os_Open file_Close os_MkdirAll os_Stat os_Remove Header_Set commit WriteHeader
     rw_Write Flush http_ServeFile httpError cmd_Start transcodeFile Process_Kill
     cmd_Wait reader_Close encoder_exit reader_Read turn final_select initial serve finish
     generating rejected
     fresh_response final_state returned error_response error_trace plain_text
     stream_header spawn_failed_response made_dirs origFilePath outputDir transcodedFilePath
     st_fs st_resp st_proc st_pipe st_trace
     r_header r_status r_sent r_body r_flushes r_served app negb].

Tactic Notation "run" "in" hyp(H) :=
  cbv beta iota zeta delta
    [bind ret block defer emit get set_fs set_resp set_proc set_pipe log_Printf
     os_Open file_Close os_MkdirAll os_Stat os_Remove Header_Set commit WriteHeader
     rw_Write Flush http_ServeFile httpError cmd_Start transcodeFile Process_Kill
     cmd_Wait reader_Close encoder_exit reader_Read turn final_select initial serve finish
     generating rejected
     fresh_response final_state returned error_response error_trace plain_text
     stream_header spawn_failed_response made_dirs origFilePath outputDir transcodedFilePath
     st_fs st_resp st_proc st_pipe st_trace
     r_header r_status r_sent r_body r_flushes r_served app negb] in H.

(** The same on a state that is not known: the traces stay as sums. *)
Tactic Notation "exec" :=
  cbv beta iota zeta delta
    [bind ret block defer emit get set_fs set_resp set_proc set_pipe log_Printf
     os_Remove commit rw_Write Flush Process_Kill cmd_Wait reader_Close
     encoder_exit reader_Read turn final_select finish file_Close
     final_state returned
     st_fs st_resp st_proc st_pipe st_trace
     r_header r_status r_sent r_body r_flushes r_served negb].

(** ** Requests that fail the checks *)

Section Rejected.

Variables (config : JSONConfig) (e : env) (fs : gmap string node).

Lemma serve_no_route reqPath :
    FindStringSubmatch reqPath = None ->
    serve config e fs reqPath = rejected fs 404 "Not Found".
Proof.
    intros H. unfold serve, handleTranscodeRequest. rewrite H. reflexivity.
Qed.

Lemma serve_bad_width reqPath widthStr raw :
    FindStringSubmatch reqPath = Some (widthStr, raw) ->
    (forall w, Atoi widthStr = Some w -> ~ In w (Widths config)) ->
    serve config e fs reqPath = rejected fs 400 "Invalid Width".
Proof.
    intros Hm Hw. unfold serve, handleTranscodeRequest. rewrite Hm.
    destruct (Atoi widthStr) as [w|] eqn:Ha; [|reflexivity].
    destruct (widthFound w (Widths config)) eqn:Hf; [|reflexivity].
    apply widthFound_In in Hf. exfalso. eapply Hw; eauto.
Qed.

Lemma serve_bad_path reqPath widthStr raw width :
    FindStringSubmatch reqPath = Some (widthStr, raw) ->
    Atoi widthStr = Some width ->
    In width (Widths config) ->
    Contains (Clean raw) "../" || IsAbs (Clean raw) = true ->
    serve config e fs reqPath = rejected fs 400 "Invalid file path".
Proof.
    intros Hm Ha Hw Hp. unfold serve, handleTranscodeRequest.
    rewrite Hm, Ha. apply widthFound_In in Hw. rewrite Hw. cbn [negb].
    rewrite Hp. reflexivity.
Qed.

  (** A request that does not pass [validate] is answered with 404 or 400
      and nothing else happens. *)
Lemma serve_invalid reqPath :
    validate config reqPath = None ->
    exists code msg,
      serve config e fs reqPath = rejected fs code msg /\ (code = 404 \/ code = 400).
Proof.
    unfold validate. intros H.
    destruct (FindStringSubmatch reqPath) as [[widthStr raw]|] eqn:Hm.
    - destruct (Atoi widthStr) as [w|] eqn:Ha.
      + destruct (widthFound w (Widths config)) eqn:Hf.
        * destruct (Contains (Clean raw) "../" || IsAbs (Clean raw)) eqn:Hp;
            [|discriminate].
          exists 400, "Invalid file path". split; [|auto].
          eapply serve_bad_path; eauto. now apply widthFound_In.
        * exists 400, "Invalid Width". split; [|auto].
          eapply serve_bad_width; eauto. intros w' Hw' Hin.
          assert (w' = w) as -> by congruence.
          apply widthFound_In in Hin. congruence.
      + exists 400, "Invalid Width". split; [|auto].
        eapply serve_bad_width; eauto. intros w' Hw'. congruence.
    - exists 404, "Not Found". split; [|auto]. now apply serve_no_route.
Qed.

End Rejected.

(** ** Requests that pass the checks *)

Lemma validate_Some config reqPath width filename :
  validate config reqPath = Some (width, filename) ->
  exists widthStr raw,
    FindStringSubmatch reqPath = Some (widthStr, raw) /\
    Atoi widthStr = Some width /\
    widthFound width (Widths config) = true /\
    filename = Clean raw /\
    Contains filename "../" || IsAbs filename = false.
Proof.
  unfold validate. intros H.
  destruct (FindStringSubmatch reqPath) as [[widthStr raw]|]; [|discriminate].
  destruct (Atoi widthStr) as [w|] eqn:Ha; [|discriminate].
  destruct (widthFound w (Widths config)) eqn:Hf; [|discriminate].
  destruct (Contains (Clean raw) "../" || IsAbs (Clean raw)) eqn:Hp; [discriminate|].
  injection H as <- <-. exists widthStr, raw. auto.
Qed.

(** Enter the handler with a request that passes the checks. *)
Ltac enter Hv :=
  let widthStr := fresh "widthStr" in
  let raw := fresh "raw" in
  let Hm := fresh "Hm" in
  let Ha := fresh "Ha" in
  let Hf := fresh "Hf" in
  let Hc := fresh "Hc" in
  let Hp := fresh "Hp" in
  destruct (validate_Some _ _ _ _ Hv) as (widthStr & raw & Hm & Ha & Hf & Hc & Hp);
  unfold serve, handleTranscodeRequest;
  rewrite Hm, Ha, Hf; cbn [negb]; cbv zeta; rewrite <- Hc, Hp.

Section Validated.

Variables (config : JSONConfig) (e : env) (fs : gmap string node).
Variables (reqPath : string) (width : Z) (filename : string).
Hypothesis Hv : validate config reqPath = Some (width, filename).

Let orig := origFilePath config filename.
Let dir := outputDir config width.
Let canon := transcodedFilePath config width filename.

Lemma serve_source_missing :
    open_fault e orig = false ->
    fs !! orig = None ->
    serve config e fs reqPath =
      Done tt {| st_fs := fs; st_resp := error_response 404 "File Not Found";
                 st_proc := NotStarted; st_pipe := [];
                 st_trace := EOpen orig :: error_trace 404 "File Not Found" |}.
Proof.
    intros Ho Hn. enter Hv. subst orig. run. run in Ho. run in Hn.
    rewrite Ho, Hn. reflexivity.
Qed.

Lemma serve_source_error :
    open_fault e orig = true ->
    serve config e fs reqPath =
      Done tt {| st_fs := fs; st_resp := error_response 500 "Internal Server Error";
                 st_proc := NotStarted; st_pipe := [];
                 st_trace := EOpen orig :: ELog "Error opening original file"
                             :: error_trace 500 "Internal Server Error" |}.
Proof.
    intros Ho. enter Hv. subst orig. run. run in Ho. rewrite Ho. reflexivity.
Qed.

  (** From here on the source file opens. *)
Hypothesis Ho : open_fault e orig = false.
Hypothesis Hsrc : is_Some (fs !! orig).

Lemma serve_mkdir_fault :
    mkdir_fault e dir = true ->
    serve config e fs reqPath =
      Done tt {| st_fs := fs;
                 st_resp := error_response 500 "Could not create output directory";
                 st_proc := NotStarted; st_pipe := [];
                 st_trace := [EOpen orig; EMkdirAll dir;
                              ELog "Error creating output directory"]
                             ++ error_trace 500 "Could not create output directory"
                             ++ [EClose orig] |}.
Proof.
    intros Hd. destruct Hsrc as [n Hn]. enter Hv. subst orig dir.
    run. run in Ho. run in Hn. run in Hd. rewrite Ho, Hn, Hd. reflexivity.
Qed.

Lemma serve_mkdir_refused fs' :
    mkdir_fault e dir = false ->
    made_dirs fs dir = (false, fs') ->
    serve config e fs reqPath =
      Done tt {| st_fs := fs';
                 st_resp := error_response 500 "Could not create output directory";
                 st_proc := NotStarted; st_pipe := [];
                 st_trace := [EOpen orig; EMkdirAll dir;
                              ELog "Error creating output directory"]
                             ++ error_trace 500 "Could not create output directory"
                             ++ [EClose orig] |}.
Proof.
    intros Hd Hm'. destruct Hsrc as [n Hn]. enter Hv. subst orig dir.
    run. run in Ho. run in Hn. run in Hd. run in Hm'. rewrite Ho, Hn, Hd, Hm'.
    reflexivity.
Qed.

  (** From here on the output directory is there. *)
Variable fs' : gmap string node.
Hypothesis Hd : mkdir_fault e dir = false.
Hypothesis Hmade : made_dirs fs dir = (true, fs').

Lemma serve_stat_error :
    stat_fault e canon = true ->
    serve config e fs reqPath =
      Done tt {| st_fs := fs'; st_resp := error_response 500 "Internal Server Error";
                 st_proc := NotStarted; st_pipe := [];
                 st_trace := [EOpen orig; EMkdirAll dir; EStat canon;
                              ELog "Error stat transcoded file"]
                             ++ error_trace 500 "Internal Server Error"
                             ++ [EClose orig] |}.
Proof.
    intros Hs. destruct Hsrc as [n Hn]. enter Hv. subst orig dir canon.
    run. run in Ho. run in Hn. run in Hd. run in Hmade. run in Hs.
    rewrite Ho, Hn, Hd, Hmade. run. rewrite Hs. reflexivity.
Qed.

Hypothesis Hs : stat_fault e canon = false.

Lemma serve_cache_hit :
    is_Some (fs' !! canon) ->
    serve config e fs reqPath =
      Done tt {| st_fs := fs';
                 st_resp := {| r_header := ∅; r_status := None; r_sent := ∅;
                               r_body := []; r_flushes := 0;
                               r_served := Some canon |};
                 st_proc := NotStarted; st_pipe := [];
                 st_trace := [EOpen orig; EMkdirAll dir; EStat canon;
                              EServeFile canon; EClose orig] |}.
Proof.
    intros [n' Hn']. destruct Hsrc as [n Hn]. enter Hv. subst orig dir canon.
    run. run in Ho. run in Hn. run in Hd. run in Hmade. run in Hs. run in Hn'.
    rewrite Ho, Hn, Hd, Hmade. run. rewrite Hs, Hn'. reflexivity.
Qed.

  (** From here on nothing is found under the canonical name. *)
Hypothesis Hmiss : fs' !! canon = None.

Lemma serve_no_flusher :
    has_flusher e = false ->
    serve config e fs reqPath =
      Done tt {| st_fs := fs'; st_resp := error_response 500 "Streaming not supported";
                 st_proc := NotStarted; st_pipe := [];
                 st_trace := [EOpen orig; EMkdirAll dir; EStat canon]
                             ++ error_trace 500 "Streaming not supported"
                             ++ [EClose orig] |}.
Proof.
    intros Hfl. destruct Hsrc as [n Hn]. enter Hv. subst orig dir canon.
    run. run in Ho. run in Hn. run in Hd. run in Hmade. run in Hs. run in Hmiss.
    rewrite Ho, Hn, Hd, Hmade. run. rewrite Hs, Hmiss, Hfl. reflexivity.
Qed.

Hypothesis Hfl : has_flusher e = true.

Lemma serve_pipe_fails :
    pipe_fault e = true ->
    serve config e fs reqPath =
      Done tt {| st_fs := fs'; st_resp := spawn_failed_response;
                 st_proc := NotStarted; st_pipe := [];
                 st_trace := [EOpen orig; EMkdirAll dir; EStat canon;
                              ESetHeader "Content-Type" "video/mp4";
                              ESetHeader "Transfer-Encoding" "chunked";
                              EWriteHeader 200; EStdoutPipe;
                              ELog "Error starting transcoding"]
                             ++ error_trace 500 "Failed to start transcoding"
                             ++ [EClose orig] |}.
Proof.
    intros Hpf. destruct Hsrc as [n Hn]. enter Hv. subst orig dir canon.
    run. run in Ho. run in Hn. run in Hd. run in Hmade. run in Hs. run in Hmiss.
    rewrite Ho, Hn, Hd, Hmade. run. rewrite Hs, Hmiss, Hfl. run. rewrite Hpf.
    reflexivity.
Qed.

Lemma serve_start_fails :
    pipe_fault e = false ->
    start_fault e = true ->
    serve config e fs reqPath =
      Done tt {| st_fs := fs'; st_resp := spawn_failed_response;
                 st_proc := NotStarted; st_pipe := [];
                 st_trace := [EOpen orig; EMkdirAll dir; EStat canon;
                              ESetHeader "Content-Type" "video/mp4";
                              ESetHeader "Transfer-Encoding" "chunked";
                              EWriteHeader 200; EStdoutPipe;
                              EStart (ffmpeg_argv orig width canon);
                              ELog "Error starting transcoding"]
                             ++ error_trace 500 "Failed to start transcoding"
                             ++ [EClose orig] |}.
Proof.
    intros Hpf Hsf. destruct Hsrc as [n Hn]. enter Hv. subst orig dir canon.
    run. run in Ho. run in Hn. run in Hd. run in Hmade. run in Hs. run in Hmiss.
    rewrite Ho, Hn, Hd, Hmade. run. rewrite Hs, Hmiss, Hfl. run. rewrite Hpf, Hsf.
    reflexivity.
Qed.

  (** With the encoder started, the rest of the request is the pump
      followed by the final select and the deferred calls. *)
Lemma serve_generates :
    pipe_fault e = false ->
    start_fault e = false ->
    serve config e fs reqPath =
      finish e orig
        (pump e canon (schedule e) (generating config e fs' width filename)).
Proof.
    intros Hpf Hsf. destruct Hsrc as [n Hn]. enter Hv. subst orig dir canon.
    run. run in Ho. run in Hn. run in Hd. run in Hmade. run in Hs. run in Hmiss.
    rewrite Ho, Hn, Hd, Hmade. run. rewrite Hs, Hmiss, Hfl. run. rewrite Hpf, Hsf.
    match goal with |- context [pump ?a ?b ?c ?d] => destruct (pump a b c d) as [p s|s] end;
      [|reflexivity].
    destruct s as [fs1 resp1 proc1 pipe1 trace1].
    destruct (ctx_wins e), p, proc1; reflexivity.
Qed.

End Validated.

(** ** The stream pump *)

Ltac in_cases :=
  repeat match goal with
         | H : In _ (_ :: _) |- _ => destruct H as [H|H]
         | H : In _ [] |- _ => destruct H
         | H : _ \/ _ |- _ => destruct H
         | H : False |- _ => destruct H
         end.

Section Pump.

Variable e : env.
Variable path : string.

  (** The loop is its first turn followed by the loop on the rest. *)
Lemma pump_cons st rest s :
    pump e path (st :: rest) s =
      match turn e path st s with
      | Done None s1 => pump e path rest s1
      | Done (Some p) s1 => Done p s1
      | Blocked s1 => Blocked s1
      end.
Proof.
    cbn [pump]. unfold turn.
    destruct (ctx_done st); [reflexivity|].
    destruct s as [fs0 resp0 proc0 pipe0 trace0].
    destruct (rd_err st) as [|clean|]; destruct proc0; try destruct clean; run;
      (destruct (take _ pipe0); [reflexivity|]);
      destruct (wr_ok st); reflexivity.
Qed.

Lemma bufsize_bytes : Z.of_nat bufsize = 16 * 1024.
Proof. vm_compute. reflexivity. Qed.

Lemma read_size_le st s : (read_size st s <= bufsize)%nat.
Proof. unfold read_size. lia. Qed.

Lemma flushed_app evs1 evs2 :
    flushed evs1 = true -> flushed evs2 = true -> flushed (evs1 ++ evs2) = true.
Proof.
    revert evs2. induction evs1 as [|ev evs1 IH]; intros evs2 H1 H2; [exact H2|].
    destruct ev; try (cbn in *; now apply IH).
    destruct ok; [|cbn in *; now apply IH].
    destruct evs1 as [|ev' evs1]; [discriminate|].
    destruct ev'; try discriminate.
    change (flushed (EFlush :: evs1 ++ evs2) = true).
    apply (IH evs2); [exact H1 | exact H2].
Qed.

Lemma written_app evs1 evs2 :
    written (evs1 ++ evs2) = written evs1 ++ written evs2.
Proof.
    induction evs1 as [|ev evs1 IH]; [reflexivity|].
    destruct ev; cbn; try exact IH. destruct ok; cbn; [now rewrite IH | exact IH].
Qed.

  (** What one turn does, whatever the state it starts in. *)
Lemma turn_spec st s :
    exists r s1 evs,
      turn e path st s = Done r s1 /\
      st_trace s1 = st_trace s ++ evs /\
      (forall n, In (ERead n) evs -> (n <= bufsize)%nat) /\
      (forall b ok, In (EWrite b ok) evs -> (0 < length b <= bufsize)%nat) /\
      flushed evs = true /\
      r_body (st_resp s1) = r_body (st_resp s) ++ List.concat (written evs) /\
      (r <> Some PumpWriteError ->
       st_pipe s = List.concat (written evs) ++ st_pipe s1) /\
      (r <> Some PumpReadError -> forall name, ~ In (ERemove name) evs) /\
      (ctx_done st = true -> r = Some PumpCancelled /\ s1 = s) /\
      match r with
      | None => ctx_done st = false /\ rd_err st = ErrNil
      | Some PumpCancelled => ctx_done st = true
      | Some PumpEOF => ctx_done st = false /\ exists c, rd_err st = ErrEOF c
      | Some PumpReadError =>
          ctx_done st = false /\ rd_err st = ErrRead /\
          exists evs0,
            evs = evs0 ++ [ERemove path; ELog "Error reading transcoded data"]
      | Some PumpWriteError =>
          ctx_done st = false /\ wr_ok st = false /\
          exists evs0 b,
            evs = evs0 ++ [EWrite b false; ELog "Error writing to client"]
      | Some PumpWaiting => False
      end.
Proof.
    destruct (ctx_done st) eqn:Hc.
    { exists (Some PumpCancelled), s, []. unfold turn. rewrite Hc.
      rewrite !app_nil_r. cbn [In flushed].
      split_and!; try done; intros; try discriminate; tauto. }
    pose proof (read_size_le st s) as Hle.
    assert (Hlen : (length (take (read_size st s) (st_pipe s)) <= bufsize)%nat)
      by (rewrite length_take; lia).
    pose proof (take_drop (read_size st s) (st_pipe s)) as Htd.
    unfold turn. rewrite Hc. unfold read_size in *.
    destruct s as [fs0 [hd0 code0 sent0 body0 fl0 sv0] proc0 pipe0 trace0].
    cbn [st_pipe] in *.
    destruct (rd_err st) as [|clean|] eqn:Hr; destruct proc0; try destruct clean;
      destruct code0; exec.
    all: destruct (take _ pipe0) as [|b chunk] eqn:Ht.
    all: try destruct (wr_ok st) eqn:Hw.
    all: eexists _, _, _; (split; [reflexivity|]); cbn [st_trace st_resp st_pipe r_body].
    all: rewrite <- ?app_assoc; (split; [reflexivity|]).
    all: cbn [app In flushed written List.concat length] in *; rewrite ?app_nil_r.
    all: split_and!; try done.
    all: try (intros; in_cases; simplify_eq; cbn [length] in *; solve [lia|done]).
    all: try solve [eexists [_]; reflexivity | eexists [_; _; _]; reflexivity
                   | eexists [_], _; reflexivity | eexists _; reflexivity].
    all: intros Hne name Hin; in_cases; solve [discriminate | done].
Qed.

  (** A turn that moves data leaves the files and the encoder alone. *)
Lemma turn_flowing st s :
    flowing st = true ->
    exists s1,
      turn e path st s = Done None s1 /\
      st_fs s1 = st_fs s /\ st_proc s1 = st_proc s.
Proof.
    unfold flowing. intros H.
    destruct (ctx_done st) eqn:Hc; [discriminate|].
    destruct (wr_ok st) eqn:Hw; [|discriminate].
    destruct (rd_err st) eqn:Hr; try discriminate.
    unfold turn. rewrite Hc, Hr, Hw. exec.
    destruct (take _ _); eexists; split_and!; reflexivity.
Qed.

  (** The turn that reads a clean end of the stream: the encoder has
      finished the file it was writing. *)
Lemma turn_clean_eof st s out :
    ctx_done st = false -> wr_ok st = true -> rd_err st = ErrEOF true ->
    st_proc s = Running out ->
    exists s1,
      turn e path st s = Done (Some PumpEOF) s1 /\
      st_fs s1 = <[out := File true (enc_artifact e)]> (st_fs s) /\
      st_proc s1 = Terminated.
Proof.
    intros Hc Hw Hr Hp. unfold turn. rewrite Hc, Hr, Hw.
    destruct s as [fs0 resp0 proc0 pipe0 trace0]. cbn [st_proc] in Hp. subst proc0.
    exec. destruct (take _ _); eexists; split_and!; reflexivity.
Qed.

  (** A turn can end the encoder and never revives it. *)
Lemma turn_proc st s r s1 out :
    turn e path st s = Done r s1 ->
    st_proc s = Running out \/ st_proc s = Terminated ->
    st_proc s1 = Running out \/ st_proc s1 = Terminated.
Proof.
    unfold turn. intros H Hp.
    destruct (ctx_done st); [injection H as <- <-; exact Hp|].
    destruct s as [fs0 resp0 proc0 pipe0 trace0]. cbn [st_proc] in Hp.
    revert H. exec.
    destruct (rd_err st) as [|clean|]; destruct Hp as [-> | ->];
      try destruct clean; exec;
      (destruct (take _ pipe0); [|destruct (wr_ok st)]);
      intros H; injection H as <- <-; cbn [st_proc]; auto.
Qed.

Lemma turn_not_waiting st s s1 :
    turn e path st s <> Done (Some PumpWaiting) s1.
Proof.
    intros Ht.
    destruct (turn_spec st s) as (r & s1' & evs & Ht' & H).
    rewrite Ht in Ht'. injection Ht' as <- <-. tauto.
Qed.

Lemma turn_returns st s : exists r s1, turn e path st s = Done r s1.
Proof.
    destruct (turn_spec st s) as (r & s1 & evs & Ht & _). eauto.
Qed.

  (** *** The loop *)

Lemma pump_nil s : pump e path [] s = Done PumpWaiting s.
Proof. reflexivity. Qed.

Lemma pump_app pre rest s :
    pump e path (pre ++ rest) s =
      match pump e path pre s with
      | Done PumpWaiting s1 => pump e path rest s1
      | r => r
      end.
Proof.
    revert s. induction pre as [|st pre IH]; intros s; [reflexivity|].
    rewrite <- app_comm_cons, !pump_cons.
    destruct (turn e path st s) as [[p|] s1|s1] eqn:Ht; [|apply IH|reflexivity].
    destruct p; try reflexivity.
    now apply turn_not_waiting in Ht.
Qed.

Lemma pump_single st s :
    pump e path [st] s =
      match turn e path st s with
      | Done None s1 => Done PumpWaiting s1
      | Done (Some p) s1 => Done p s1
      | Blocked s1 => Blocked s1
      end.
Proof. rewrite pump_cons. now destruct (turn e path st s) as [[p|] s1|s1]. Qed.

  (** The loop always comes to a result, and what it reads, writes and
      flushes on the way. *)
Lemma pump_stream sched s :
    exists p s' evs,
      pump e path sched s = Done p s' /\
      st_trace s' = st_trace s ++ evs /\
      (forall n, In (ERead n) evs -> (n <= bufsize)%nat) /\
      (forall b ok, In (EWrite b ok) evs -> (0 < length b <= bufsize)%nat) /\
      flushed evs = true /\
      r_body (st_resp s') = r_body (st_resp s) ++ List.concat (written evs) /\
      (p <> PumpWriteError ->
       st_pipe s = List.concat (written evs) ++ st_pipe s') /\
      (p <> PumpReadError -> forall name, ~ In (ERemove name) evs).
Proof.
    revert s. induction sched as [|st rest IH]; intros s.
    { exists PumpWaiting, s, []. rewrite !app_nil_r. cbn.
      split_and!; try done; intros; try contradiction. tauto. }
    destruct (turn_spec st s)
      as (r & s1 & evs1 & Ht & Htr & Hrd & Hwr & Hfl & Hbody & Hpipe & Hrm & _ & Hout).
    rewrite pump_cons, Ht. destruct r as [p|].
    - exists p, s1, evs1. split_and!; try done.
      + intros Hp. apply Hpipe. congruence.
      + intros Hp. apply Hrm. congruence.
    - destruct (IH s1)
        as (p & s' & evs2 & Hp & Htr2 & Hrd2 & Hwr2 & Hfl2 & Hbody2 & Hpipe2 & Hrm2).
      exists p, s', (evs1 ++ evs2). split_and!.
      + exact Hp.
      + now rewrite Htr2, Htr, app_assoc.
      + intros n [H|H]%in_app_or; eauto.
      + intros b ok [H|H]%in_app_or; eauto.
      + now apply flushed_app.
      + now rewrite Hbody2, Hbody, written_app, concat_app, app_assoc.
      + intros Hne. rewrite Hpipe by discriminate. rewrite (Hpipe2 Hne).
        now rewrite written_app, concat_app, app_assoc.
      + intros Hne name [H|H]%in_app_or.
        * eapply Hrm; [discriminate | exact H].
        * eapply Hrm2; eauto.
Qed.

Lemma pump_returns sched s : exists p s', pump e path sched s = Done p s'.
Proof. destruct (pump_stream sched s) as (p & s' & _ & H & _). eauto. Qed.

  (** The turn the loop stops in: the turns before it all went round
      again, and no turn after it is ever taken. *)
Lemma pump_stops sched s p s' :
    pump e path sched s = Done p s' ->
    match p with
    | PumpWaiting =>
        Forall (fun st => ctx_done st = false /\ rd_err st = ErrNil) sched
    | _ =>
        exists pre st rest s1,
          sched = pre ++ st :: rest /\
          Forall (fun st => ctx_done st = false /\ rd_err st = ErrNil) pre /\
          pump e path pre s = Done PumpWaiting s1 /\
          pump e path [st] s1 = Done p s'
    end.
Proof.
    revert s. induction sched as [|st rest IH]; intros s.
    { cbn. intros H. injection H as <- <-. constructor. }
    rewrite pump_cons.
    destruct (turn_spec st s) as (r & s1 & evs1 & Ht & _ & _ & _ & _ & _ & _ & _ & _ & Hout).
    rewrite Ht. destruct r as [q|].
    - intros H. injection H as <- <-.
      assert (Hsingle : pump e path [st] s = Done q s1) by now rewrite pump_single, Ht.
      destruct q; try contradiction;
        exists [], st, rest, s; split_and!; try done; constructor.
    - intros H. specialize (IH s1 H).
      assert (Hhead : pump e path (st :: nil) s = Done PumpWaiting s1)
        by now rewrite pump_single, Ht.
      destruct p;
        try (destruct IH as (pre & st' & rest' & s2 & -> & Hall & Hpre & Hlast);
             exists (st :: pre), st', rest', s2; split_and!;
             [reflexivity | constructor; [exact Hout | exact Hall]
             | rewrite pump_cons, Ht; exact Hpre | exact Hlast]).
      constructor; [exact Hout | exact IH].
Qed.

Lemma pump_flowing pre s :
    Forall (fun st => flowing st = true) pre ->
    exists s1,
      pump e path pre s = Done PumpWaiting s1 /\
      st_fs s1 = st_fs s /\ st_proc s1 = st_proc s.
Proof.
    intros Hall. revert s. induction Hall as [|st pre Hst _ IH]; intros s.
    { exists s. now rewrite pump_nil. }
    destruct (turn_flowing st s Hst) as (s1 & Ht & Hfs & Hproc).
    destruct (IH s1) as (s2 & Hp & Hfs2 & Hproc2).
    exists s2. rewrite pump_cons, Ht. split_and!; [exact Hp | congruence | congruence].
Qed.

  (** Data flows for a while and then the pump finds the context done:
      it stops there, with the files and the encoder as they were. *)
Lemma pump_cancelled pre st rest s :
    Forall (fun st => flowing st = true) pre ->
    ctx_done st = true ->
    exists s1,
      pump e path (pre ++ st :: rest) s = Done PumpCancelled s1 /\
      st_fs s1 = st_fs s /\ st_proc s1 = st_proc s.
Proof.
    intros Hall Hc.
    destruct (pump_flowing pre s Hall) as (s1 & Hp & Hfs & Hproc).
    exists s1. rewrite pump_app, Hp, pump_cons.
    destruct (turn_spec st s1) as (r & s2 & evs & Ht & _ & _ & _ & _ & _ & _ & _ & Hcan & _).
    destruct (Hcan Hc) as [-> ->]. rewrite Ht. auto.
Qed.

  (** On a schedule that completes the pump reads the clean end of the
      stream, and the encoder has finished its output file by then. *)
Lemma pump_completes sched s out :
    completes sched = true ->
    st_proc s = Running out ->
    exists s',
      pump e path sched s = Done PumpEOF s' /\
      st_fs s' = <[out := File true (enc_artifact e)]> (st_fs s) /\
      st_proc s' = Terminated.
Proof.
    revert s. induction sched as [|st rest IH]; intros s Hc Hp; [discriminate|].
    cbn [completes] in Hc.
    destruct (ctx_done st) eqn:Hcd; [discriminate|].
    destruct (wr_ok st) eqn:Hw; [|discriminate].
    destruct (rd_err st) as [|clean|] eqn:Hr; [| |discriminate].
    - assert (Hfl : flowing st = true) by (unfold flowing; now rewrite Hcd, Hw, Hr).
      destruct (turn_flowing st s Hfl) as (s1 & Ht & Hfs & Hproc).
      destruct (IH s1 Hc) as (s' & Hpump & Hfs' & Hproc'); [congruence|].
      exists s'. rewrite pump_cons, Ht. split_and!; [exact Hpump | congruence | exact Hproc'].
    - cbn in Hc. subst clean.
      destruct (turn_clean_eof st s out Hcd Hw Hr Hp) as (s1 & Ht & Hfs & Hproc).
      exists s1. rewrite pump_cons, Ht. auto.
Qed.

Lemma pump_proc sched s p s' out :
    pump e path sched s = Done p s' ->
    st_proc s = Running out \/ st_proc s = Terminated ->
    st_proc s' = Running out \/ st_proc s' = Terminated.
Proof.
    revert s. induction sched as [|st rest IH]; intros s H Hp.
    { cbn in H. injection H as <- <-. exact Hp. }
    rewrite pump_cons in H.
    destruct (turn e path st s) as [[q|] s1|s1] eqn:Ht; [| |discriminate].
    - injection H as <- <-. eapply turn_proc; eauto.
    - eapply IH; [exact H|]. eapply turn_proc; eauto.
Qed.

End Pump.

(** ** After the pump *)

Section Finish.

Variable e : env.
Variable orig : string.

  (** The handler waits for ever only when the pump is inside a read and
      the context stays alive. *)
Lemma finish_blocks s :
    ctx_wins e = false ->
    finish e orig (Done PumpWaiting s) = Blocked s.
Proof. intros H. unfold finish, final_select, bind. now rewrite H. Qed.

  (** In every other case it returns, and the deferred calls have closed
      the pipe, killed the encoder, reaped it and closed the source. *)
Lemma finish_returns p s out :
    ctx_wins e = true \/ p <> PumpWaiting ->
    st_proc s = Running out \/ st_proc s = Terminated ->
    exists s2 pre,
      finish e orig (Done p s) = Done tt s2 /\
      st_proc s2 = Reaped /\
      st_fs s2 = st_fs s /\
      st_resp s2 = st_resp s /\
      st_trace s2 = pre ++ [ECloseReader; EKill; EWait; EClose orig] /\
      (pre = st_trace s \/
       pre = st_trace s ++
             [ELog "Client disconnected or request cancelled. Cleaning up..."]).
Proof.
    intros Hret Hp. destruct s as [fs0 resp0 proc0 pipe0 trace0].
    cbn [st_proc] in Hp. unfold finish.
    destruct (ctx_wins e) eqn:Hw.
    - eexists _,
        (trace0 ++ [ELog "Client disconnected or request cancelled. Cleaning up..."]).
      destruct Hp as [-> | ->]; exec; rewrite Hw; exec;
        (split; [reflexivity|]); cbn [st_proc st_fs st_resp st_trace];
        (split_and!; [reflexivity | reflexivity | reflexivity | | right; reflexivity]);
        rewrite <- !app_assoc; reflexivity.
    - destruct Hret as [|Hne]; [discriminate|].
      eexists _, trace0.
      destruct Hp as [-> | ->]; exec; rewrite Hw; destruct p; try contradiction; exec;
        (split; [reflexivity|]); cbn [st_proc st_fs st_resp st_trace];
        (split_and!; [reflexivity | reflexivity | reflexivity | | left; reflexivity]);
        rewrite <- !app_assoc; reflexivity.
Qed.

End Finish.

(** ** Directories *)

Lemma mkdirs_mono chain fs made fs' :
  mkdirs fs chain = (made, fs') ->
  forall k n, fs !! k = Some n -> fs' !! k = Some n.
Proof.
  revert fs. induction chain as [|p r IH]; intros fs H k n Hk; cbn in H.
  { injection H as _ <-. exact Hk. }
  destruct (fs !! p) as [[|c b]|] eqn:Hp.
  - eapply IH; eauto.
  - injection H as _ <-. exact Hk.
  - eapply IH; [exact H|]. rewrite lookup_insert_ne; [exact Hk|]. congruence.
Qed.

Lemma mkdirs_dirs chain fs fs' :
  mkdirs fs chain = (true, fs') ->
  Forall (fun p => fs' !! p = Some Dir) chain.
Proof.
  revert fs. induction chain as [|p r IH]; intros fs H; cbn in H; [constructor|].
  destruct (fs !! p) as [[|c b]|] eqn:Hp.
  - constructor; [|eapply IH; eauto]. eapply mkdirs_mono; eauto.
  - discriminate.
  - constructor; [|eapply IH; eauto].
    eapply mkdirs_mono; [exact H|]. apply lookup_insert_eq.
Qed.

Lemma mkdirs_id chain fs :
  Forall (fun p => fs !! p = Some Dir) chain ->
  mkdirs fs chain = (true, fs).
Proof.
  induction 1 as [|p r Hp _ IH]; cbn; [reflexivity|]. now rewrite Hp.
Qed.

(** Once made, the directory is found again, also with one more file on
    the disk that is none of its parents. *)
Lemma made_dirs_again fs fs' dir name n :
  made_dirs fs dir = (true, fs') ->
  fs' !! name = None ->
  made_dirs (<[name := n]> fs') dir = (true, <[name := n]> fs').
Proof.
  unfold made_dirs. intros H Hn. apply mkdirs_id.
  eapply Forall_impl; [eapply mkdirs_dirs; exact H|].
  intros p Hp. cbn in Hp. rewrite lookup_insert_ne; [exact Hp|]. congruence.
Qed.

(** ** Every way through the handler

    [branches Hv] splits a goal about [serve] on a request that passes the
    checks into the ten ways the handler can go from there, and rewrites
    [serve] with its outcome in each. *)

Ltac branches Hv :=
  match type of Hv with
  | validate ?config ?reqPath = Some (?width, ?filename) =>
    match goal with
    | |- context [serve config ?e ?fs reqPath] =>
      let Ho := fresh "Ho" in
      let Hsrc := fresh "Hsrc" in
      let Hd := fresh "Hd" in
      let Hmade := fresh "Hmade" in
      let Hs := fresh "Hs" in
      let Hc := fresh "Hc" in
      let Hfl := fresh "Hfl" in
      let Hpf := fresh "Hpf" in
      let Hsf := fresh "Hsf" in
      let fs' := fresh "fs'" in
      destruct (open_fault e (origFilePath config filename)) eqn:Ho;
      [ rewrite (serve_source_error config e fs reqPath width filename Hv Ho)
      | destruct (fs !! origFilePath config filename) eqn:Hsrc;
        [ apply mk_is_Some in Hsrc;
          destruct (mkdir_fault e (outputDir config width)) eqn:Hd;
          [ rewrite (serve_mkdir_fault config e fs reqPath width filename Hv Ho Hsrc Hd)
          | destruct (made_dirs fs (outputDir config width)) as [[|] fs'] eqn:Hmade;
            [ destruct (stat_fault e (transcodedFilePath config width filename)) eqn:Hs;
              [ rewrite (serve_stat_error config e fs reqPath width filename
                           Hv Ho Hsrc fs' Hd Hmade Hs)
              | destruct (fs' !! transcodedFilePath config width filename) eqn:Hc;
                [ apply mk_is_Some in Hc;
                  rewrite (serve_cache_hit config e fs reqPath width filename
                             Hv Ho Hsrc fs' Hd Hmade Hs Hc)
                | destruct (has_flusher e) eqn:Hfl;
                  [ destruct (pipe_fault e) eqn:Hpf;
                    [ rewrite (serve_pipe_fails config e fs reqPath width filename
                                 Hv Ho Hsrc fs' Hd Hmade Hs Hc Hfl Hpf)
                    | destruct (start_fault e) eqn:Hsf;
                      [ rewrite (serve_start_fails config e fs reqPath width filename
                                   Hv Ho Hsrc fs' Hd Hmade Hs Hc Hfl Hpf Hsf)
                      | rewrite (serve_generates config e fs reqPath width filename
                                   Hv Ho Hsrc fs' Hd Hmade Hs Hc Hfl Hpf Hsf) ] ]
                  | rewrite (serve_no_flusher config e fs reqPath width filename
                               Hv Ho Hsrc fs' Hd Hmade Hs Hc Hfl) ] ] ]
            | rewrite (serve_mkdir_refused config e fs reqPath width filename
                         Hv Ho Hsrc fs' Hd Hmade) ] ]
        | rewrite (serve_source_missing config e fs reqPath width filename Hv Ho Hsrc) ] ]
    end
  end.

(** The trace of a request that passes the checks starts with the source
    being opened, and goes on with [MkdirAll] when the source opens. *)
Lemma serve_trace_head config e fs reqPath width filename :
  validate config reqPath = Some (width, filename) ->
  exists tail,
    st_trace (final_state (serve config e fs reqPath)) =
      EOpen (origFilePath config filename) :: tail /\
    (open_fault e (origFilePath config filename) = false ->
     is_Some (fs !! origFilePath config filename) ->
     exists tail', tail = EMkdirAll (outputDir config width) :: tail').
Proof.
  intros Hv. branches Hv.
  10: { eexists. split; [reflexivity|]. intros _ [n Hn]. congruence. }
  1: { eexists. split; [reflexivity|]. intros; discriminate. }
  all: try solve [eexists; (split; [reflexivity|]); intros _ _; eexists; reflexivity].
  destruct (pump_stream e (transcodedFilePath config width filename) (schedule e)
              (generating config e fs' width filename))
    as (p & s' & evs & Hp & Htr & _).
  rewrite Hp.
  assert (Hproc : st_proc s' = Running (transcodedFilePath config width filename)
                  \/ st_proc s' = Terminated).
  { eapply pump_proc; [exact Hp|]. left. reflexivity. }
  destruct (ctx_wins e) eqn:Hw; [|destruct (decide (p = PumpWaiting)) as [->|Hne]].
  - destruct (finish_returns e (origFilePath config filename) p s' _ (or_introl Hw) Hproc)
      as (s2 & pre & Hf & _ & _ & _ & Htr2 & Hpre).
    rewrite Hf. cbn [final_state]. rewrite Htr2.
    destruct Hpre as [-> | ->]; rewrite Htr; cbn; eexists; (split; [reflexivity|]);
      intros _ _; eexists; reflexivity.
  - rewrite finish_blocks by exact Hw. cbn [final_state]. rewrite Htr. cbn.
    eexists; (split; [reflexivity|]); intros _ _; eexists; reflexivity.
  - destruct (finish_returns e (origFilePath config filename) p s' _ (or_intror Hne) Hproc)
      as (s2 & pre & Hf & _ & _ & _ & Htr2 & Hpre).
    rewrite Hf. cbn [final_state]. rewrite Htr2.
    destruct Hpre as [-> | ->]; rewrite Htr; cbn; eexists; (split; [reflexivity|]);
      intros _ _; eexists; reflexivity.
Qed.


(** ** Generation and what follows it *)

Section Generation.

Variables (config : JSONConfig) (e : env) (fs fs' : gmap string node).
Variables (reqPath : string) (width : Z) (filename : string).

Let orig := origFilePath config filename.
Let dir := outputDir config width.
Let canon := transcodedFilePath config width filename.

Hypothesis Hv : validate config reqPath = Some (width, filename).
Hypothesis Ho : open_fault e orig = false.
Hypothesis Hsrc : is_Some (fs !! orig).
Hypothesis Hd : mkdir_fault e dir = false.
Hypothesis Hmade : made_dirs fs dir = (true, fs').
Hypothesis Hs : stat_fault e canon = false.
Hypothesis Hmiss : fs' !! canon = None.
Hypothesis Hfl : has_flusher e = true.
Hypothesis Hpf : pipe_fault e = false.
Hypothesis Hsf : start_fault e = false.

  (** The request starts the encoder on the canonical name and runs the
      pump; the pump comes to a result with the encoder running or gone. *)
Lemma serve_pumps :
    exists p s',
      pump e canon (schedule e) (generating config e fs' width filename) = Done p s' /\
      serve config e fs reqPath = finish e orig (Done p s') /\
      (st_proc s' = Running canon \/ st_proc s' = Terminated) /\
      In (EStart (ffmpeg_argv orig width canon)) (st_trace s').
Proof.
    destruct (pump_stream e canon (schedule e) (generating config e fs' width filename))
      as (p & s' & evs & Hp & Htr & _).
    exists p, s'. split_and!.
    - exact Hp.
    - subst orig dir canon.
      rewrite (serve_generates config e fs reqPath width filename
                 Hv Ho Hsrc fs' Hd Hmade Hs Hmiss Hfl Hpf Hsf).
      now rewrite Hp.
    - eapply pump_proc; [exact Hp|]. left. reflexivity.
    - rewrite Htr. apply in_or_app. left. cbn. tauto.
Qed.

  (** The same request again, with an entry under the canonical name. *)
Lemma serve_again e2 n :
    open_fault e2 orig = false ->
    mkdir_fault e2 dir = false ->
    stat_fault e2 canon = false ->
    serve config e2 (<[canon := n]> fs') reqPath =
      Done tt {| st_fs := <[canon := n]> fs'; st_resp := served_response canon;
                 st_proc := NotStarted; st_pipe := [];
                 st_trace := [EOpen orig; EMkdirAll dir; EStat canon;
                              EServeFile canon; EClose orig] |}.
Proof.
    intros Ho2 Hd2 Hs2. subst orig dir canon.
    apply (serve_cache_hit config e2 _ reqPath width filename Hv Ho2).
    - destruct Hsrc as [m Hm].
      pose proof (mkdirs_mono _ _ _ _ Hmade _ _ Hm) as Hm'.
      apply lookup_insert_is_Some.
      destruct (decide (transcodedFilePath config width filename
                        = origFilePath config filename)); eauto.
    - exact Hd2.
    - eapply made_dirs_again; eauto.
    - exact Hs2.
    - rewrite lookup_insert_eq. eauto.
Qed.

End Generation.

(** ** The concrete installation *)

Lemma example_source_opens :
  is_Some (Example.disk !! origFilePath Example.config "movie.mp4").
Proof. vm_compute. eauto. Qed.

Lemma example_dirs_made :
  made_dirs Example.disk (outputDir Example.config 480) = (true, Example.disk_480).
Proof. vm_compute. reflexivity. Qed.

Lemma example_cache_empty :
Example.disk_480 !! transcodedFilePath Example.config 480 "movie.mp4" = None.
Proof. vm_compute. reflexivity. Qed.

(** ** Strings and their elements *)

Lemma string_eqb_true a b : string_eqb a b = true <-> a = b.
Proof. unfold string_eqb. apply bool_decide_eq_true. Qed.

Lemma string_eqb_false a b : string_eqb a b = false <-> a <> b.
Proof. unfold string_eqb. apply bool_decide_eq_false. Qed.

Lemma ascii_eqb_true a b : ascii_eqb a b = true <-> a = b.
Proof. unfold ascii_eqb. apply bool_decide_eq_true. Qed.

Lemma ascii_eqb_false a b : ascii_eqb a b = false <-> a <> b.
Proof. unfold ascii_eqb. apply bool_decide_eq_false. Qed.

Lemma split_slash_cons s : exists h t, split_slash s = h :: t.
Proof.
  induction s as [|c r (h & t & IH)]; cbn; [eauto|].
  destruct (ascii_eqb c "/"); [eauto|]. rewrite IH. eauto.
Qed.

Lemma split_slash_no_slash s :
  Forall (fun x => has_slash x = false) (split_slash s).
Proof.
  induction s as [|c r IH]; cbn; [repeat constructor|].
  destruct (ascii_eqb c "/") eqn:Hc; [constructor; [reflexivity | exact IH]|].
  destruct (split_slash r) as [|h t]; [repeat constructor; cbn; now rewrite Hc|].
  inversion IH; subst. constructor; [|assumption]. cbn. now rewrite Hc.
Qed.

Lemma split_slash_plain x : has_slash x = false -> split_slash x = [x].
Proof.
  induction x as [|c r IH]; cbn; [reflexivity|].
  destruct (ascii_eqb c "/"); [discriminate|]. cbn. intros H. now rewrite IH.
Qed.

Lemma append_nil x : "" +:+ x = x.
Proof. reflexivity. Qed.

Lemma append_cons c r x : String c r +:+ x = String c (r +:+ x).
Proof. reflexivity. Qed.

Lemma split_slash_app a b :
  split_slash (a +:+ String "/" b) = split_slash a ++ split_slash b.
Proof.
  induction a as [|c r IH]; [reflexivity|].
  rewrite append_cons. cbn [split_slash].
  destruct (ascii_eqb c "/"); [now rewrite IH|].
  rewrite IH. destruct (split_slash_cons r) as (h & t & ->). reflexivity.
Qed.

Lemma join_slash_cons x y l :
  join_slash (x :: y :: l) = x +:+ String "/" (join_slash (y :: l)).
Proof. reflexivity. Qed.

Lemma split_join l :
  l <> [] -> Forall (fun x => has_slash x = false) l ->
  split_slash (join_slash l) = l.
Proof.
  induction l as [|x l IH]; [congruence|]. intros _ H. inversion H; subst.
  destruct l as [|y l]; [now apply split_slash_plain|].
  rewrite join_slash_cons, split_slash_app, split_slash_plain by assumption.
  rewrite IH; [reflexivity | congruence | assumption].
Qed.

(** ** The elements [Clean] keeps *)

Lemma is_name_spec x :
  is_name x = true <->
  x <> "" /\ x <> "." /\ x <> ".." /\ has_slash x = false.
Proof.
  unfold is_name. rewrite !andb_true_iff, !negb_true_iff, !string_eqb_false.
  tauto.
Qed.

Lemma clean_elem_name abs out x :
  is_name x = true -> clean_elem abs out x = x :: out.
Proof.
  intros (H1 & H2 & H3 & _)%is_name_spec. unfold clean_elem.
  apply string_eqb_false in H1, H2, H3. now rewrite H1, H2, H3.
Qed.

Lemma fold_clean_names abs ns st :
  Forall (fun x => is_name x = true) ns ->
  fold_left (clean_elem abs) ns st = rev ns ++ st.
Proof.
  intros H. revert st. induction H as [|x ns Hx _ IH]; intros st; [reflexivity|].
  cbn [fold_left rev]. rewrite clean_elem_name by exact Hx.
  rewrite IH, <- app_assoc. reflexivity.
Qed.

Lemma repeat_snoc {A} (x : A) k : repeat x k ++ [x] = x :: repeat x k.
Proof. induction k as [|k IH]; cbn; [reflexivity|]. now rewrite IH. Qed.

Lemma rev_repeat {A} (x : A) k : rev (repeat x k) = repeat x k.
Proof.
  induction k as [|k IH]; cbn; [reflexivity|]. now rewrite IH, repeat_snoc.
Qed.

Lemma fold_clean_dots k j :
  fold_left (clean_elem false) (repeat ".." k) (repeat ".." j)
  = repeat ".." (k + j).
Proof.
  revert j. induction k as [|k IH]; intros j; [reflexivity|].
  cbn [repeat fold_left].
  replace (clean_elem false (repeat ".." j) "..") with (repeat ".." (S j))
    by (destruct j; reflexivity).
  rewrite IH. f_equal. lia.
Qed.

(** The stack of [Clean], last element first: names on top of the [..]
    a relative path starts with. *)
Lemma clean_elem_shape abs st x :
  has_slash x = false ->
  (exists k ns, st = ns ++ repeat ".." k /\
                Forall (fun x => is_name x = true) ns /\ (abs = true -> k = 0%nat)) ->
  exists k ns, clean_elem abs st x = ns ++ repeat ".." k /\
               Forall (fun x => is_name x = true) ns /\ (abs = true -> k = 0%nat).
Proof.
  intros Hx (k & ns & -> & Hns & Hk). unfold clean_elem.
  destruct (string_eqb x "") eqn:H1; [eauto|].
  destruct (string_eqb x ".") eqn:H2; [eauto|].
  destruct (string_eqb x "..") eqn:H3.
  - apply string_eqb_true in H3. subst x.
    destruct ns as [|n ns].
    + cbn [app]. destruct k as [|k].
      * cbn. destruct abs.
        -- exists 0%nat, []. auto.
        -- exists 1%nat, []. split_and!; [reflexivity | constructor | discriminate].
      * cbn [repeat]. replace (string_eqb ".." "..") with true by reflexivity.
        exists (S (S k)), []. split_and!; [reflexivity | constructor |].
        intros Ha. specialize (Hk Ha). discriminate.
    + inversion Hns as [|? ? Hn Hns']; subst. cbn [app].
      apply is_name_spec in Hn as (_ & _ & Hn & _).
      apply string_eqb_false in Hn. rewrite Hn. eauto.
  - exists k, (x :: ns). split_and!; [reflexivity | | exact Hk].
    constructor; [|exact Hns]. apply is_name_spec.
    apply string_eqb_false in H1, H2, H3. auto.
Qed.

Lemma fold_clean_shape abs segs st :
  Forall (fun x => has_slash x = false) segs ->
  (exists k ns, st = ns ++ repeat ".." k /\
                Forall (fun x => is_name x = true) ns /\ (abs = true -> k = 0%nat)) ->
  exists k ns, fold_left (clean_elem abs) segs st = ns ++ repeat ".." k /\
               Forall (fun x => is_name x = true) ns /\ (abs = true -> k = 0%nat).
Proof.
  intros H. revert st. induction H as [|x segs Hx _ IH]; intros st Hst; [exact Hst|].
  cbn [fold_left]. apply IH. now apply clean_elem_shape.
Qed.

Lemma elems_cleaned path : cleaned (rooted path) (elems path).
Proof.
  unfold elems.
  destruct (fold_clean_shape (rooted path) (split_slash path) [])
    as (k & ns & -> & Hns & Hk).
  - apply split_slash_no_slash.
  - exists 0%nat, []. split_and!; [reflexivity | constructor | reflexivity].
  - exists k, (rev ns). rewrite rev_app_distr, rev_repeat.
    split_and!; [reflexivity | | exact Hk].
    now apply List.Forall_rev.
Qed.

Lemma Clean_render path : Clean path = render (rooted path) (elems path).
Proof. destruct path; reflexivity. Qed.

Lemma rooted_plain x y :
  x <> "" -> has_slash x = false -> rooted (x +:+ y) = false /\ rooted x = false.
Proof.
  destruct x as [|c r]; [congruence|]. intros _ H. rewrite append_cons.
  cbn in *. destruct (ascii_eqb c "/"); [discriminate|]. auto.
Qed.

Lemma rooted_join x l :
  x <> "" -> has_slash x = false -> rooted (join_slash (x :: l)) = false.
Proof.
  intros H1 H2. destruct l as [|y l].
  - exact (proj2 (rooted_plain x "" H1 H2)).
  - rewrite join_slash_cons. exact (proj1 (rooted_plain x _ H1 H2)).
Qed.

Lemma dotdot_or_name_plain k ns :
  Forall (fun x => is_name x = true) ns ->
  Forall (fun x => x <> "" /\ has_slash x = false) (repeat ".." k ++ ns).
Proof.
  intros H. apply Forall_app. split.
  - apply List.Forall_forall. intros x Hx%repeat_spec. subst. auto.
  - eapply Forall_impl; [exact H|]. intros x Hx%is_name_spec. tauto.
Qed.

(** Reading back what [render] wrote. *)
Lemma elems_render abs l :
  cleaned abs l ->
  elems (render abs l) = l /\ rooted (render abs l) = abs.
Proof.
  intros (k & ns & -> & Hns & Hk).
  pose proof (dotdot_or_name_plain k ns Hns) as Hplain.
  assert (Hnoslash : Forall (fun x => has_slash x = false) (repeat ".." k ++ ns)).
  { eapply Forall_impl; [exact Hplain|]. cbn. tauto. }
  destruct abs.
  - rewrite (Hk eq_refl) in *. cbn [repeat app] in *. split; [|reflexivity].
    unfold elems, render. cbn [rooted split_slash].
    replace (ascii_eqb "/" "/") with true by reflexivity.
    destruct ns as [|n ns]; [reflexivity|].
    rewrite split_join by (congruence || assumption).
    remember (n :: ns) as l eqn:El.
    cbn [fold_left]. replace (clean_elem true [] "") with (@nil string) by reflexivity.
    rewrite fold_clean_names by exact Hns. now rewrite app_nil_r, rev_involutive.
  - destruct (repeat ".." k ++ ns) as [|x l] eqn:Hl; [split; reflexivity|].
    inversion Hplain as [|? ? [Hx1 Hx2] _]; subst.
    unfold render. split; [|now apply rooted_join].
    unfold elems. rewrite rooted_join by assumption.
    rewrite split_join by (congruence || assumption).
    rewrite <- Hl, fold_left_app.
    change (@nil string) with (repeat ".." 0).
    rewrite (fold_clean_dots k 0), Nat.add_0_r, fold_clean_names by exact Hns.
    now rewrite rev_app_distr, rev_involutive, rev_repeat.
Qed.

Lemma Clean_idempotent path : Clean (Clean path) = Clean path.
Proof.
  rewrite (Clean_render (Clean path)), (Clean_render path).
  destruct (elems_render (rooted path) (elems path) (elems_cleaned path)) as [-> ->].
  reflexivity.
Qed.

Lemma Join_pair a b : a <> "" -> Join [a; b] = Clean (a +:+ String "/" b).
Proof.
  intros Ha. cbn [Join]. apply string_eqb_false in Ha. rewrite Ha. reflexivity.
Qed.

Lemma rooted_append a b : a <> "" -> rooted (a +:+ b) = rooted a.
Proof. destruct a; [congruence|reflexivity]. Qed.

(** Appending a cleaned relative name without [..] to a directory. *)
Lemma elems_append a b :
  a <> "" ->
  Forall (fun x => is_name x = true) (names b) ->
  elems (a +:+ String "/" b) = elems a ++ names b.
Proof.
  intros Ha Hb. unfold elems.
  rewrite rooted_append, split_slash_app, fold_left_app by exact Ha.
  unfold names in *. destruct (string_eqb b ".") eqn:Hdot.
  - apply string_eqb_true in Hdot. subst b. cbn [split_slash fold_left].
    replace (ascii_eqb "." "/") with false by reflexivity. cbn [fold_left].
    set (st := fold_left _ _ _).
    replace (clean_elem (rooted a) st ".") with st by reflexivity.
    now rewrite app_nil_r.
  - rewrite fold_clean_names by exact Hb. now rewrite rev_app_distr, rev_involutive.
Qed.

(** ** The file names the handler lets through *)

Lemma not_dot_of_names ns :
  ns <> [] -> Forall (fun x => is_name x = true) ns -> join_slash ns <> ".".
Proof.
  intros Hne Hns Heq.
  assert (Hsplit : split_slash (join_slash ns) = ns).
  { apply split_join; [exact Hne|].
    eapply Forall_impl; [exact Hns|]. intros x Hx%is_name_spec. tauto. }
  rewrite Heq in Hsplit. cbn in Hsplit. subst ns.
  inversion Hns; subst. discriminate.
Qed.

Lemma names_render ns :
  Forall (fun x => is_name x = true) ns -> names (render false ns) = ns.
Proof.
  intros Hns. destruct ns as [|n ns]; [reflexivity|].
  unfold names, render.
  assert (Hne : join_slash (n :: ns) <> ".") by (apply not_dot_of_names; congruence).
  apply string_eqb_false in Hne. rewrite Hne.
  apply split_join; [congruence|].
  eapply Forall_impl; [exact Hns|]. intros x Hx%is_name_spec. tauto.
Qed.

(** A cleaned name that is not absolute and does not contain [../] is
    [..] itself or is made of names only. *)
Lemma accepted_shape raw :
  IsAbs (Clean raw) = false ->
  Contains (Clean raw) "../" = false ->
  Clean raw = ".." \/
  (Forall (fun x => is_name x = true) (names (Clean raw)) /\
   Clean raw = render false (names (Clean raw))).
Proof.
  rewrite Clean_render.
  destruct (elems_cleaned raw) as (k & ns & -> & Hns & Hk).
  destruct (rooted raw); [discriminate|]. intros _.
  destruct k as [|k].
  - intros _. right. cbn [repeat app]. rewrite names_render by exact Hns. auto.
  - cbn [repeat app]. destruct (repeat ".." k ++ ns) as [|y l] eqn:Hl.
    + intros _. left. reflexivity.
    + unfold render. rewrite join_slash_cons, !append_cons, append_nil.
      intros H. exfalso. revert H. cbn [Contains HasPrefix].
      replace (ascii_eqb "." ".") with true by reflexivity.
      replace (ascii_eqb "/" "/") with true by reflexivity.
      destruct (join_slash (y :: l)); discriminate.
Qed.

Lemma validate_clean config reqPath width filename :
  validate config reqPath = Some (width, filename) ->
  Clean filename = filename /\
  IsAbs filename = false /\
  (filename = ".." \/
   (Forall (fun x => is_name x = true) (names filename) /\
    filename = render false (names filename))).
Proof.
  intros Hv. destruct (validate_Some _ _ _ _ Hv) as (widthStr & raw & _ & _ & _ & -> & Hp).
  apply orb_false_iff in Hp as [Hc Ha].
  split; [apply Clean_idempotent|]. split; [exact Ha|].
  now apply accepted_shape.
Qed.

(** [Join] of a directory and a name made of names. *)
Lemma Join_names a b :
  Forall (fun x => is_name x = true) (names b) ->
  b = render false (names b) ->
  Join [a; b] = render (rooted a) (elems a ++ names b) /\
  cleaned (rooted a) (elems a ++ names b).
Proof.
  intros Hb Eb.
  assert (Hcl : cleaned (rooted a) (elems a ++ names b)).
  { destruct (elems_cleaned a) as (k & ns & -> & Hns & Hk).
    exists k, (ns ++ names b). rewrite app_assoc. split_and!; [reflexivity | | exact Hk].
    apply Forall_app. auto. }
  split; [|exact Hcl].
  destruct (string_eqb a "") eqn:Ha.
  - apply string_eqb_true in Ha. subst a. cbn [Join rooted elems].
    replace (string_eqb "" "") with true by reflexivity. cbn [Join].
    assert (Hne : b <> "").
    { rewrite Eb. unfold render. destruct (names b) as [|n ns]; [discriminate|].
      inversion Hb as [|? ? (Hn & _)%is_name_spec _]; subst.
      destruct ns; [exact Hn|]. rewrite join_slash_cons.
      destruct n; [congruence|]. discriminate. }
    apply string_eqb_false in Hne. rewrite Hne.
    change (join_slash [b]) with b. change (rev (fold_left _ (split_slash "") [])) with (@nil string).
    cbn [app].
    rewrite Clean_render.
    assert (Hcb : cleaned false (names b)).
    { exists 0%nat, (names b). split_and!; [reflexivity | exact Hb | reflexivity]. }
    destruct (elems_render false (names b) Hcb) as [He Hr].
    rewrite <- Eb in He, Hr. now rewrite He, Hr.
  - apply string_eqb_false in Ha. rewrite Join_pair by exact Ha.
    rewrite Clean_render, rooted_append, elems_append by assumption. reflexivity.
Qed.

(** ** [Itoa] *)

Lemma uint_digits d : sign_or_digits (NilEmpty.string_of_uint d) = true.
Proof. induction d; cbn; [reflexivity|exact IHd..]. Qed.

Lemma uint_nonempty d : NilZero.string_of_uint d <> "".
Proof. destruct d; discriminate. Qed.

Lemma Itoa_chars n : sign_or_digits (Itoa n) = true /\ Itoa n <> "".
Proof.
  unfold Itoa. destruct (Z.to_int n) as [d|d]; cbn [NilZero.string_of_int].
  - split; [|apply uint_nonempty]. destruct d; try apply uint_digits. reflexivity.
  - split; [|discriminate]. cbn. destruct d; try apply uint_digits. reflexivity.
Qed.

Lemma sign_or_digits_name s :
  sign_or_digits s = true -> s <> "" -> is_name s = true.
Proof.
  intros Hs Hne. apply is_name_spec. split_and!; [exact Hne | | |].
  - intros ->. discriminate.
  - intros ->. discriminate.
  - clear Hne. induction s as [|c r IH]; [reflexivity|]. cbn in *.
    apply andb_true_iff in Hs as [Hc Hr]. rewrite (IH Hr), orb_false_r.
    apply ascii_eqb_false. intros ->. discriminate.
Qed.

Lemma Itoa_name n : is_name (Itoa n) = true.
Proof. destruct (Itoa_chars n). now apply sign_or_digits_name. Qed.

Lemma Itoa_inj a b : Itoa a = Itoa b -> a = b.
Proof.
  unfold Itoa. intros H. apply DecimalZ.to_int_inj.
  assert (Hnil : forall n, Z.to_int n <> Decimal.Pos Decimal.Nil /\
                           Z.to_int n <> Decimal.Neg Decimal.Nil).
  { intros [|p|p]; cbn; split; try discriminate;
      intros [= Hp]; now apply DecimalPos.Unsigned.to_uint_nonnil in Hp. }
  destruct (Hnil a) as [Ha1 Ha2], (Hnil b) as [Hb1 Hb2].
  pose proof (NilZero.isi _ Ha1 Ha2) as Ia. pose proof (NilZero.isi _ Hb1 Hb2) as Ib.
  rewrite H in Ia. congruence.
Qed.

(** ** Where the handler reads and writes *)

Lemma names_single x : is_name x = true -> names x = [x] /\ x = render false [x].
Proof.
  intros Hx. pose proof Hx as (_ & Hd & _ & Hs)%is_name_spec.
  unfold names. apply string_eqb_false in Hd. rewrite Hd.
  rewrite split_slash_plain by exact Hs. auto.
Qed.

Lemma outputDir_render config width :
  outputDir config width
    = render (rooted (OutputDir config)) (elems (OutputDir config) ++ [Itoa width]) /\
  cleaned (rooted (OutputDir config)) (elems (OutputDir config) ++ [Itoa width]).
Proof.
  destruct (names_single (Itoa width) (Itoa_name width)) as [Hn Hr].
  unfold outputDir.
  destruct (Join_names (OutputDir config) (Itoa width)) as [HJ HC].
  - rewrite Hn. constructor; [apply Itoa_name | constructor].
  - now rewrite Hn.
  - rewrite Hn in *. auto.
Qed.

Lemma transcodedFilePath_render config width filename :
  Forall (fun x => is_name x = true) (names filename) ->
  filename = render false (names filename) ->
  transcodedFilePath config width filename
    = render (rooted (OutputDir config))
        (elems (OutputDir config) ++ Itoa width :: names filename) /\
  cleaned (rooted (OutputDir config))
    (elems (OutputDir config) ++ Itoa width :: names filename).
Proof.
  intros Hf Ef. destruct (outputDir_render config width) as [Hd Hc].
  destruct (elems_render _ _ Hc) as [He Hr]. rewrite <- Hd in He, Hr.
  unfold transcodedFilePath.
  destruct (Join_names (outputDir config width) filename Hf Ef) as [HJ HC].
  rewrite HJ, He, Hr in *. rewrite <- app_assoc in *. auto.
Qed.

(** ** How much the pump moves *)

Lemma take_min {A} c (l : list A) : take (Nat.min c (length l)) l = take c l.
Proof.
  destruct (Nat.le_gt_cases c (length l)) as [H|H].
  - now rewrite Nat.min_l.
  - rewrite Nat.min_r by lia. rewrite !take_ge by lia. reflexivity.
Qed.

Lemma drop_min {A} c (l : list A) : drop (Nat.min c (length l)) l = drop c l.
Proof.
  destruct (Nat.le_gt_cases c (length l)) as [H|H].
  - now rewrite Nat.min_l.
  - rewrite Nat.min_r by lia. rewrite !drop_ge by lia. reflexivity.
Qed.

Lemma take_add {A} a b (l : list A) : take (a + b) l = take a l ++ take b (drop a l).
Proof.
  revert l. induction a as [|a IH]; intros l; [reflexivity|].
  destruct l as [|x l]; cbn.
  - now rewrite take_nil.
  - now rewrite IH.
Qed.

Lemma drop_add {A} a b (l : list A) : drop (a + b) l = drop b (drop a l).
Proof. rewrite drop_drop. reflexivity. Qed.

Lemma reads_app evs1 evs2 : reads (evs1 ++ evs2) = reads evs1 ++ reads evs2.
Proof.
  induction evs1 as [|ev evs1 IH]; [reflexivity|].
  destruct ev; cbn; try exact IH. now rewrite IH.
Qed.

Lemma capacity_cons st turns :
  capacity (st :: turns) = (Nat.min (rd_avail st) bufsize + capacity turns)%nat.
Proof. reflexivity. Qed.

Lemma capacity_single st : capacity [st] = Nat.min (rd_avail st) bufsize.
Proof. unfold capacity. cbn [map list_sum fold_right]. lia. Qed.

Lemma capacity_app a b : capacity (a ++ b) = (capacity a + capacity b)%nat.
Proof.
  induction a as [|st a IH]; [reflexivity|].
  rewrite <- app_comm_cons, !capacity_cons, IH. lia.
Qed.

Section PumpMoves.

Variable e : env.
Variable path : string.

  (** A turn that finds the context alive reads once, takes from the pipe
      what is ready and fits the buffer, and hands all of it to the client
      unless the write fails. *)
Lemma turn_moves st s :
    ctx_done st = false ->
    exists r s1 evs,
      turn e path st s = Done r s1 /\
      st_trace s1 = st_trace s ++ evs /\
      length (reads evs) = 1%nat /\
      st_pipe s1 = drop (capacity [st]) (st_pipe s) /\
      r_flushes (st_resp s1) = (r_flushes (st_resp s) + length (written evs))%nat /\
      r_body (st_resp s1) = r_body (st_resp s) ++ List.concat (written evs) /\
      (length (written evs) <= 1)%nat /\
      (r <> Some PumpWriteError ->
       List.concat (written evs) = take (capacity [st]) (st_pipe s)) /\
      (r = Some PumpWriteError -> written evs = []).
Proof.
    intros Hc. rewrite capacity_single.
    pose proof (take_min (Nat.min (rd_avail st) bufsize) (st_pipe s)) as Htake.
    pose proof (drop_min (Nat.min (rd_avail st) bufsize) (st_pipe s)) as Hdrop.
    unfold turn. rewrite Hc.
    destruct s as [fs0 [hd0 code0 sent0 body0 fl0 sv0] proc0 pipe0 trace0].
    cbn [st_pipe] in *.
    destruct (rd_err st) as [|clean|] eqn:Hr; destruct proc0; try destruct clean;
      destruct code0; exec.
    all: rewrite Hdrop.
    all: destruct (take (Nat.min (Nat.min (rd_avail st) bufsize) (length pipe0)) pipe0)
           as [|b chunk] eqn:Ht.
    all: try destruct (wr_ok st) eqn:Hw.
    all: eexists _, _, _; (split; [reflexivity|]); cbn [st_trace st_resp st_pipe
           r_flushes r_body].
    all: rewrite <- ?app_assoc; (split; [reflexivity|]).
    all: cbn [app written reads List.concat length]; rewrite ?app_nil_r.
    all: split_and!; try done; try lia.
    all: try (intros _; symmetry; exact Htake).
Qed.

  (** While the loop goes round, every turn has read and all that was
      read has gone to the client. *)
Lemma pump_waiting_moves pre s s1 :
    pump e path pre s = Done PumpWaiting s1 ->
    exists evs,
      st_trace s1 = st_trace s ++ evs /\
      length (reads evs) = length pre /\
      st_pipe s1 = drop (capacity pre) (st_pipe s) /\
      List.concat (written evs) = take (capacity pre) (st_pipe s) /\
      r_body (st_resp s1) = r_body (st_resp s) ++ take (capacity pre) (st_pipe s) /\
      r_flushes (st_resp s1) = (r_flushes (st_resp s) + length (written evs))%nat.
Proof.
    revert s. induction pre as [|st pre IH]; intros s.
    { rewrite pump_nil. intros H. injection H as <-. exists [].
      cbn. rewrite take_0, ?app_nil_r. split_and!; try done; lia. }
    rewrite pump_cons.
    destruct (ctx_done st) eqn:Hc.
    { unfold turn. rewrite Hc. cbn. discriminate. }
    destruct (turn_moves st s Hc)
      as (r & s2 & evs1 & Ht & Htr & Hrd & Hpipe & Hfl & Hb & _ & Hwr & _).
    rewrite Ht. destruct r as [q|].
    { intros H. injection H as -> <-. now apply turn_not_waiting in Ht. }
    intros H. destruct (IH s2 H) as (evs2 & Htr2 & Hrd2 & Hpipe2 & Hwr2 & Hb2 & Hfl2).
    exists (evs1 ++ evs2).
    rewrite reads_app, written_app, concat_app, !length_app, capacity_cons.
    rewrite capacity_single in *.
    split_and!.
    - now rewrite Htr2, Htr, app_assoc.
    - cbn [length]. lia.
    - now rewrite Hpipe2, Hpipe, drop_add.
    - rewrite Hwr2, Hpipe, Hwr by discriminate. now rewrite take_add.
    - rewrite Hb2, Hb, Hpipe, Hwr by discriminate. now rewrite take_add, app_assoc.
    - lia.
Qed.

  (** The turn the loop stops in, after the turns that went round. *)
Lemma pump_stop_moves pre st s s1 p s' :
    pump e path pre s = Done PumpWaiting s1 ->
    pump e path [st] s1 = Done p s' ->
    exists evs,
      st_trace s' = st_trace s ++ evs /\
      st_pipe s1 = drop (capacity pre) (st_pipe s) /\
      r_body (st_resp s1) = r_body (st_resp s) ++ take (capacity pre) (st_pipe s) /\
      match p with
      | PumpWaiting => True
      | PumpCancelled =>
          length (reads evs) = length pre /\
          List.concat (written evs) = take (capacity pre) (st_pipe s)
      | PumpWriteError =>
          length (reads evs) = S (length pre) /\
          st_pipe s' = drop (capacity (pre ++ [st])) (st_pipe s) /\
          List.concat (written evs) = take (capacity pre) (st_pipe s)
      | _ =>
          length (reads evs) = S (length pre) /\
          st_pipe s' = drop (capacity (pre ++ [st])) (st_pipe s) /\
          List.concat (written evs) = take (capacity (pre ++ [st])) (st_pipe s)
      end.
Proof.
    intros Hpre Hlast.
    destruct (pump_waiting_moves pre s s1 Hpre)
      as (evs1 & Htr1 & Hrd1 & Hpipe1 & Hwr1 & Hb1 & _).
    rewrite pump_single in Hlast.
    destruct (ctx_done st) eqn:Hc.
    { unfold turn in Hlast. rewrite Hc in Hlast. cbn in Hlast.
      injection Hlast as <- <-. exists evs1. split_and!; done. }
    destruct (turn_moves st s1 Hc)
      as (r & s2 & evs2 & Ht & Htr2 & Hrd2 & Hpipe2 & _ & _ & _ & Hwr2 & Hlost).
    rewrite Ht in Hlast.
    assert (Hall : st_trace s2 = st_trace s ++ evs1 ++ evs2)
      by now rewrite Htr2, Htr1, app_assoc.
    assert (Hdrop : st_pipe s2 = drop (capacity (pre ++ [st])) (st_pipe s))
      by now rewrite Hpipe2, Hpipe1, capacity_app, drop_add.
    assert (Hreads : length (reads (evs1 ++ evs2)) = S (length pre))
      by (rewrite reads_app, length_app; lia).
    destruct r as [q|]; [|injection Hlast as <- <-; exists (evs1 ++ evs2); done].
    injection Hlast as <- <-. exists (evs1 ++ evs2).
    split; [exact Hall|]. split; [exact Hpipe1|]. split; [exact Hb1|].
    rewrite written_app, concat_app.
    destruct q.
    - split_and!; try done.
      rewrite Hwr1, Hwr2, Hpipe1, capacity_app by discriminate. now rewrite take_add.
    - split_and!; try done.
      rewrite Hwr1, Hwr2, Hpipe1, capacity_app by discriminate. now rewrite take_add.
    - split_and!; try done.
      rewrite Hwr1, (Hlost eq_refl). cbn. now rewrite app_nil_r.
    - destruct (turn_spec e path st s1)
        as (r' & s2' & evs' & Ht' & _ & _ & _ & _ & _ & _ & _ & _ & Hout).
      rewrite Ht in Ht'. injection Ht' as <- <-. cbn in Hout. congruence.
    - exact I.
Qed.

  (** The writes and flushes of the loop: a flush for every chunk the
      client took, and never more chunks than reads. *)
Lemma pump_counts sched s p s' evs :
    pump e path sched s = Done p s' ->
    st_trace s' = st_trace s ++ evs ->
    r_flushes (st_resp s') = (r_flushes (st_resp s) + length (written evs))%nat /\
    (length (written evs) <= length (reads evs))%nat /\
    (length (reads evs) <= length sched)%nat.
Proof.
    revert s evs. induction sched as [|st rest IH]; intros s evs.
    { rewrite pump_nil. intros H Htr. injection H as <- <-.
      assert (evs = []) as ->.
      { apply (app_inv_head (st_trace s)). now rewrite app_nil_r. }
      cbn. lia. }
    rewrite pump_cons.
    destruct (ctx_done st) eqn:Hc.
    { unfold turn. rewrite Hc. cbn. intros H Htr. injection H as <- <-.
      assert (evs = []) as ->.
      { apply (app_inv_head (st_trace s)). now rewrite app_nil_r. }
      cbn. lia. }
    destruct (turn_moves st s Hc)
      as (r & s2 & evs1 & Ht & Htr1 & Hrd1 & _ & Hfl1 & _ & Hle1 & _).
    rewrite Ht. destruct r as [q|].
    - intros H Htr. injection H as <- <-.
      assert (evs = evs1) as ->.
      { apply (app_inv_head (st_trace s)). congruence. }
      cbn [length]. lia.
    - intros H Htr.
      destruct (pump_stream e path rest s2) as (p2 & s3 & evs2 & Hp2 & Htr2 & _).
      rewrite Hp2 in H. injection H as <- <-.
      destruct (IH s2 evs2 Hp2 Htr2) as (Hfl2 & Hle2 & Hn2).
      assert (evs = evs1 ++ evs2) as ->.
      { apply (app_inv_head (st_trace s)). rewrite <- Htr, Htr2, Htr1.
        now rewrite app_assoc. }
      rewrite written_app, reads_app, !length_app. cbn [length]. lia.
Qed.

  (** On a schedule that completes, the client has got all that the
      turns up to the end of the stream could take from the pipe. *)
Lemma pump_completes_moves sched s :
    completes sched = true ->
    exists s' evs,
      pump e path sched s = Done PumpEOF s' /\
      st_trace s' = st_trace s ++ evs /\
      r_body (st_resp s')
        = r_body (st_resp s) ++ take (capacity (rounds sched)) (st_pipe s) /\
      st_pipe s' = drop (capacity (rounds sched)) (st_pipe s).
Proof.
    revert s. induction sched as [|st rest IH]; intros s Hcomp; [discriminate|].
    cbn [completes] in Hcomp.
    destruct (ctx_done st) eqn:Hc; [discriminate|].
    destruct (wr_ok st) eqn:Hw; [|discriminate].
    destruct (turn_moves st s Hc)
      as (r & s1 & evs1 & Ht & Htr1 & _ & Hpipe1 & _ & Hb1 & _ & Hwr1 & _).
    destruct (turn_spec e path st s)
      as (r' & s1' & evs1' & Ht' & _ & _ & _ & _ & _ & _ & _ & _ & Hout).
    rewrite Ht in Ht'. injection Ht' as <- <-.
    rewrite pump_cons, Ht. cbn [rounds]. unfold flowing. rewrite Hc, Hw. cbn [negb andb].
    destruct (rd_err st) as [|clean|] eqn:Hr; [| |discriminate].
    - destruct r as [[]|];
        try solve [ contradiction
                  | congruence
                  | destruct Hout as (_ & [c Hout]); discriminate
                  | destruct Hout as (_ & Hout & _); congruence
                  | destruct Hout as (_ & Hout); congruence ].
      destruct (IH s1 Hcomp) as (s' & evs2 & Hp & Htr2 & Hb2 & Hpipe2).
      exists s', (evs1 ++ evs2). rewrite capacity_cons, <- capacity_single.
      split_and!.
      + exact Hp.
      + now rewrite Htr2, Htr1, app_assoc.
      + rewrite Hb2, Hb1, Hpipe1, Hwr1 by discriminate. now rewrite take_add, app_assoc.
      + now rewrite Hpipe2, Hpipe1, drop_add.
    - destruct r as [[]|];
        try solve [ contradiction
                  | congruence
                  | destruct Hout as (_ & [c Hout]); discriminate
                  | destruct Hout as (_ & Hout & _); congruence
                  | destruct Hout as (_ & Hout); congruence ].
      exists s1, evs1. split_and!; try done.
      rewrite Hb1, Hwr1 by discriminate. reflexivity.
Qed.

End PumpMoves.


(** ** The response while the pump runs *)

Section PumpResponse.

Variable e : env.
Variable path : string.

Lemma turn_response st s :
  exists r s1 evs,
    turn e path st s = Done r s1 /\
    st_trace s1 = st_trace s ++ evs /\
    r_body (st_resp s1) = r_body (st_resp s) ++ List.concat (written evs) /\
    r_flushes (st_resp s1) = (r_flushes (st_resp s) + length (written evs))%nat /\
    (exists rest, st_pipe s = List.concat (written evs) ++ rest) /\
    (r = None -> st_pipe s = List.concat (written evs) ++ st_pipe s1) /\
    r_served (st_resp s1) = r_served (st_resp s) /\
    (forall c, r_status (st_resp s) = Some c ->
               r_status (st_resp s1) = Some c /\
               r_sent (st_resp s1) = r_sent (st_resp s) /\
               r_header (st_resp s1) = r_header (st_resp s)).
Proof.
  destruct (ctx_done st) eqn:Hc.
  { exists (Some PumpCancelled), s, []. unfold turn. rewrite Hc.
    rewrite !app_nil_r. cbn.
    split_and!; try done; try lia; try (now exists (st_pipe s)). }
  pose proof (take_drop (read_size st s) (st_pipe s)) as Htd.
  unfold turn. rewrite Hc. unfold read_size in *.
  destruct s as [fs0 [hd0 code0 sent0 body0 fl0 sv0] proc0 pipe0 trace0].
  cbn [st_pipe] in *.
  destruct (rd_err st) as [|clean|] eqn:Hr; destruct proc0; try destruct clean;
    destruct code0; exec.
  all: destruct (take _ pipe0) as [|b chunk] eqn:Ht.
  all: try destruct (wr_ok st) eqn:Hw.
  all: eexists _, _, _; (split; [reflexivity|]); cbn [st_trace st_resp st_pipe r_body
         r_flushes r_served r_status r_sent r_header].
  all: rewrite <- ?app_assoc; (split; [reflexivity|]).
  all: cbn [app written List.concat length] in *; rewrite ?app_nil_r.
  all: split_and!; try done; try lia.
  all: try (eexists; symmetry; exact Htd).
  all: try (intros c [=]; subst; done).
  all: try (intros; discriminate).
  all: try now exists pipe0.
Qed.

Lemma pump_response sched s :
  exists p s' evs,
    pump e path sched s = Done p s' /\
    st_trace s' = st_trace s ++ evs /\
    r_body (st_resp s') = r_body (st_resp s) ++ List.concat (written evs) /\
    r_flushes (st_resp s') = (r_flushes (st_resp s) + length (written evs))%nat /\
    (exists rest, st_pipe s = List.concat (written evs) ++ rest) /\
    r_served (st_resp s') = r_served (st_resp s) /\
    (forall c, r_status (st_resp s) = Some c ->
               r_status (st_resp s') = Some c /\
               r_sent (st_resp s') = r_sent (st_resp s) /\
               r_header (st_resp s') = r_header (st_resp s)).
Proof.
  revert s. induction sched as [|st rest IH]; intros s.
  { exists PumpWaiting, s, []. rewrite !app_nil_r. cbn.
    split_and!; try done; try lia; try (now exists (st_pipe s)). }
  destruct (turn_response st s)
    as (r & s1 & evs1 & Ht & Htr & Hb & Hf & Hp & Hpn & Hsv & Hst).
  rewrite pump_cons, Ht. destruct r as [p|].
  - exists p, s1, evs1. split_and!; done.
  - destruct (IH s1) as (p & s' & evs2 & Hpump & Htr2 & Hb2 & Hf2 & (rest2 & Hp2) & Hsv2 & Hst2).
    exists p, s', (evs1 ++ evs2).
    rewrite written_app, concat_app, length_app. split_and!.
    + exact Hpump.
    + now rewrite Htr2, Htr, app_assoc.
    + now rewrite Hb2, Hb, app_assoc.
    + rewrite Hf2, Hf. lia.
    + exists rest2. rewrite (Hpn eq_refl), Hp2. now rewrite app_assoc.
    + congruence.
    + intros c Hc. destruct (Hst c Hc) as (H1 & H2 & H3).
      destruct (Hst2 c H1) as (H4 & H5 & H6). split_and!; congruence.
Qed.

End PumpResponse.

(** ** Directories *)

Lemma append_assoc a b c : (a +:+ b) +:+ c = a +:+ b +:+ c.
Proof.
  induction a as [|x a IH]; [now rewrite !append_nil|].
  now rewrite !append_cons, IH.
Qed.

(** The last directory of the chain is the directory asked for. *)
Lemma dir_chain_last acc l :
  l <> [] -> Forall (fun x => x <> "") l ->
  In (acc +:+ join_slash l) (dir_chain acc l).
Proof.
  revert acc. induction l as [|x l IH]; intros acc Hne Hall; [congruence|].
  apply Forall_cons in Hall as [Hx Hall]. cbn [dir_chain].
  apply string_eqb_false in Hx. rewrite Hx.
  destruct l as [|y l].
  - left. reflexivity.
  - right. rewrite join_slash_cons.
    specialize (IH (acc +:+ x +:+ "/") ltac:(discriminate) Hall).
    replace (acc +:+ x +:+ String "/" (join_slash (y :: l)))
      with ((acc +:+ x +:+ "/") +:+ join_slash (y :: l)); [exact IH|].
    rewrite !append_assoc. reflexivity.
Qed.

Lemma outputDir_in_chain config width :
  In (outputDir config width) (dir_chain "" (split_slash (outputDir config width))).
Proof.
  destruct (outputDir_render config width) as [-> (k & ns & Hl & Hns & _)].
  set (l := elems (OutputDir config) ++ [Itoa width]) in *.
  assert (Hne : l <> []) by (subst l; now destruct (elems (OutputDir config))).
  pose proof (dotdot_or_name_plain k ns Hns) as Hplain. rewrite <- Hl in Hplain.
  assert (H1 : Forall (fun x => has_slash x = false) l)
    by (eapply Forall_impl; [exact Hplain|]; cbn; tauto).
  assert (H2 : Forall (fun x => x <> "") l)
    by (eapply Forall_impl; [exact Hplain|]; cbn; tauto).
  unfold render. destruct (rooted (OutputDir config)).
  - change (String "/" (join_slash l)) with ("" +:+ String "/" (join_slash l)) at 2.
    rewrite split_slash_app, (split_join l Hne H1).
    cbn [split_slash app dir_chain].
    replace (string_eqb "" "") with true by (symmetry; now apply string_eqb_true).
    cbn [app]. rewrite !append_nil.
    change (String "/" (join_slash l)) with ("/" +:+ join_slash l).
    now apply dir_chain_last.
  - destruct l as [|x l'] eqn:El; [congruence|]. rewrite <- El in *.
    rewrite (split_join l Hne H1).
    rewrite <- (append_nil (join_slash l)) at 1.
    now apply dir_chain_last.
Qed.

(** After [MkdirAll] the output directory is there. *)
Lemma made_dirs_dir config width fs fs' :
  made_dirs fs (outputDir config width) = (true, fs') ->
  fs' !! outputDir config width = Some Dir.
Proof.
  intros H. apply mkdirs_dirs in H. rewrite List.Forall_forall in H.
  apply H, outputDir_in_chain.
Qed.

(** [MkdirAll] changes the file system exactly when a directory of the
    chain is missing. *)
Lemma made_dirs_same fs dir fs' :
  made_dirs fs dir = (true, fs') ->
  fs' = fs <-> Forall (fun p => fs !! p = Some Dir) (dir_chain "" (split_slash dir)).
Proof.
  intros H. split.
  - intros <-. exact (mkdirs_dirs _ _ _ H).
  - intros Hall. unfold made_dirs in H. rewrite (mkdirs_id _ _ Hall) in H. congruence.
Qed.

(** ** The static file server *)

Lemma ServeFile_file fs urlPath name complete content :
  containsDotDot urlPath = false ->
  HasSuffix urlPath "/index.html" = false ->
  fs !! name = Some (File complete content) ->
  ServeFile_answer fs urlPath name = StaticContent content.
Proof. unfold ServeFile_answer. now intros -> -> ->. Qed.
(** * The claims *)

(** ** Validation *)

(** C6. A request that matches the route pattern with a width that is
    not one of the configured [Widths] (also a width too large for an
    [int]) is answered with status 400 and the plain-text body "Invalid
    Width"; the outcome does not mention the file name, the file system is
    the one before the request, no process exists, and the only calls made
    are the three on the response writer. *)
Theorem width_not_permitted_is_400 config e fs reqPath widthStr raw :
  FindStringSubmatch reqPath = Some (widthStr, raw) ->
  (forall w, Atoi widthStr = Some w -> ~ In w (Widths config)) ->
  serve config e fs reqPath =
    Done tt {| st_fs := fs;
               st_resp := {| r_header := plain_text; r_status := Some 400;
                             r_sent := plain_text;
                             r_body := bytes_of "Invalid Width";
                             r_flushes := 0; r_served := None |};
               st_proc := NotStarted; st_pipe := [];
               st_trace := [ESetHeader "Content-Type" "text/plain; charset=utf-8";
                            EWriteHeader 400;
                            EWrite (bytes_of "Invalid Width") true] |}.
Proof.
  intros Hm Hw. now rewrite (serve_bad_width config e fs reqPath widthStr raw Hm Hw).
Qed.

Lemma width_not_permitted_is_400_witness :
  FindStringSubmatch "/360p/movie.mp4" = Some ("360", "movie.mp4") /\
  r_status (st_resp (final_state
    (serve Example.config (Example.calm [] false) Example.disk "/360p/movie.mp4")))
  = Some 400.
Proof.
  split; [reflexivity|].
  rewrite (width_not_permitted_is_400 Example.config (Example.calm [] false)
Example.disk "/360p/movie.mp4" "360" "movie.mp4").
  - reflexivity.
  - reflexivity.
  - intros w Hw. injection Hw as <-. intros [H|[H|[]]]; discriminate.
Defined.

(** C3, at the input on which the handler fails it. When the cleaned
    file name is exactly [..] the check of the handler lets it through
    (it looks for the three characters [../]), and the first thing the
    handler does is to open the parent of the input directory. *)
Theorem dotdot_opens_parent_of_input config e fs reqPath widthStr raw width :
  FindStringSubmatch reqPath = Some (widthStr, raw) ->
  Atoi widthStr = Some width ->
  In width (Widths config) ->
  Clean raw = ".." ->
  validate config reqPath = Some (width, "..") /\
  exists tail,
    st_trace (final_state (serve config e fs reqPath)) =
      EOpen (Join [InputDir config; ".."]) :: tail.
Proof.
  intros Hm Ha Hw Hc.
  assert (Hv : validate config reqPath = Some (width, "..")).
  { unfold validate. rewrite Hm, Ha. apply widthFound_In in Hw. rewrite Hw, Hc.
    reflexivity. }
  split; [exact Hv|].
  destruct (serve_trace_head config e fs reqPath width ".." Hv) as (tail & H & _).
  exists tail. exact H.
Qed.

Lemma dotdot_opens_parent_of_input_witness :
  Clean ".." = ".." /\
  st_trace (final_state
    (serve Example.config (Example.calm [] false) Example.tree "/480p/.."))
  = [EOpen "/srv"; EMkdirAll "/srv/cache/480"; EStat "/srv/cache";
     EServeFile "/srv/cache"; EClose "/srv"].
Proof.
  split; [reflexivity|].
  destruct (dotdot_opens_parent_of_input Example.config (Example.calm [] false)
Example.tree "/480p/.." "480" ".." 480) as [_ [tail Ht]].
  - reflexivity.
  - reflexivity.
  - cbn. auto.
  - reflexivity.
  - vm_compute. reflexivity.
Defined.

(** ** The order of source, directory and cache *)

(** C5 as the specification states it fails: with the artifact in the
    cache and the source file gone, the request is answered with 404 and
    the cache is never looked at. *)
Lemma cache_hit_without_source_is_404 :
  validate Example.config "/480p/movie.mp4" = Some (480, "movie.mp4") /\
Example.orphan_cache !! transcodedFilePath Example.config 480 "movie.mp4"
    = Some (File true Example.whole) /\
  serve Example.config (Example.calm [] false) Example.orphan_cache "/480p/movie.mp4"
    = Done tt {| st_fs := Example.orphan_cache;
                 st_resp := error_response 404 "File Not Found";
                 st_proc := NotStarted; st_pipe := [];
                 st_trace := [EOpen "/srv/videos/movie.mp4";
                              ESetHeader "Content-Type" "text/plain; charset=utf-8";
                              EWriteHeader 404;
                              EWrite (bytes_of "File Not Found") true] |}.
Proof. split_and!; vm_compute; reflexivity. Qed.

(** C5, amended. For a request that passes the checks the handler opens
    the source file first. When the source is absent the answer is 404,
    when it cannot be opened for another reason the answer is 500, and in
    both cases neither the output directory nor the cache is touched,
    whatever the cache holds. When the source opens, the output directory
    is made and then the canonical path is looked up; an entry found there
    is handed to the static file server, with no encoder started. On no
    request is [MkdirAll] called unless the source has opened, and on
    none is the cache looked up, or a file handed to the static file
    server, unless the source has opened and the output directory has
    been made. *)
Theorem source_is_opened_before_lookup config e fs reqPath width filename :
  validate config reqPath = Some (width, filename) ->
  let orig := origFilePath config filename in
  let dir := outputDir config width in
  let canon := transcodedFilePath config width filename in
  (open_fault e orig = false -> fs !! orig = None ->
   serve config e fs reqPath =
     Done tt {| st_fs := fs; st_resp := error_response 404 "File Not Found";
                st_proc := NotStarted; st_pipe := [];
                st_trace := EOpen orig :: error_trace 404 "File Not Found" |}) /\
  (open_fault e orig = true ->
   serve config e fs reqPath =
     Done tt {| st_fs := fs; st_resp := error_response 500 "Internal Server Error";
                st_proc := NotStarted; st_pipe := [];
                st_trace := EOpen orig :: ELog "Error opening original file"
                            :: error_trace 500 "Internal Server Error" |}) /\
  (forall fs',
   open_fault e orig = false -> is_Some (fs !! orig) ->
   mkdir_fault e dir = false -> made_dirs fs dir = (true, fs') ->
   stat_fault e canon = false -> is_Some (fs' !! canon) ->
   serve config e fs reqPath =
     Done tt {| st_fs := fs'; st_resp := served_response canon;
                st_proc := NotStarted; st_pipe := [];
                st_trace := [EOpen orig; EMkdirAll dir; EStat canon;
                             EServeFile canon; EClose orig] |}) /\
  (forall name,
   In (EMkdirAll name) (st_trace (final_state (serve config e fs reqPath))) ->
   open_fault e orig = false /\ is_Some (fs !! orig)) /\
  (forall name,
   In (EStat name) (st_trace (final_state (serve config e fs reqPath))) \/
   In (EServeFile name) (st_trace (final_state (serve config e fs reqPath))) ->
   open_fault e orig = false /\ is_Some (fs !! orig) /\
   mkdir_fault e dir = false /\ fst (made_dirs fs dir) = true).
Proof.
  intros Hv. cbv zeta. split_and!.
  - intros Ho Hn. exact (serve_source_missing config e fs reqPath width filename Hv Ho Hn).
  - intros Ho. exact (serve_source_error config e fs reqPath width filename Hv Ho).
  - intros fs' Ho Hsrc Hd Hmade Hs Hc.
    exact (serve_cache_hit config e fs reqPath width filename Hv Ho Hsrc fs' Hd Hmade Hs Hc).
  - intros name. branches Hv.
    1, 10: cbn [final_state st_trace]; unfold error_trace;
      intros Hin; exfalso; cbn in Hin; in_cases; discriminate.
    all: intros _; auto.
  - intros name. branches Hv.
    1, 2, 9, 10: cbn [final_state st_trace]; unfold error_trace;
      intros Hin; exfalso; cbn in Hin; in_cases; discriminate.
    all: intros _; rewrite ?Hmade; auto.
Qed.

Lemma source_is_opened_before_lookup_witness :
  validate Example.config "/480p/movie.mp4" = Some (480, "movie.mp4") /\
  r_status (st_resp (final_state
    (serve Example.config (Example.calm [] false) Example.orphan_cache
       "/480p/movie.mp4"))) = Some 404.
Proof.
  split; [reflexivity|].
  rewrite (proj1 (source_is_opened_before_lookup Example.config
                    (Example.calm [] false) Example.orphan_cache
                    "/480p/movie.mp4" 480 "movie.mp4" eq_refl));
    reflexivity.
Defined.




(** ** Failures before streaming *)

(** C4, at the inputs on which the handler fails it. When the pipe
    cannot be set up or the encoder cannot be started, the status line 200
    and the headers of a video stream are already on the wire: the
    [WriteHeader 500] of [httpError] comes second and changes nothing, and
    the client reads the text of the error as the body of a 200 response
    of type [video/mp4]. No encoder runs and nothing appears under the
    canonical name. *)
Theorem spawn_failure_is_sent_as_200 config e fs fs' reqPath width filename :
  validate config reqPath = Some (width, filename) ->
  let orig := origFilePath config filename in
  let dir := outputDir config width in
  let canon := transcodedFilePath config width filename in
  open_fault e orig = false -> is_Some (fs !! orig) ->
  mkdir_fault e dir = false -> made_dirs fs dir = (true, fs') ->
  stat_fault e canon = false -> fs' !! canon = None ->
  has_flusher e = true ->
  pipe_fault e = true \/ start_fault e = true ->
  exists s,
    serve config e fs reqPath = Done tt s /\
    r_status (st_resp s) = Some 200 /\
    r_sent (st_resp s) !! "Content-Type" = Some "video/mp4" /\
    r_body (st_resp s) = bytes_of "Failed to start transcoding" /\
    In (EWriteHeader 500) (st_trace s) /\
    st_proc s = NotStarted /\
    st_fs s = fs' /\ st_fs s !! canon = None.
Proof.
  intros Hv orig dir canon Ho Hsrc Hd Hmade Hs Hc Hfl Hfail.
  destruct (pipe_fault e) eqn:Hpf.
  - eexists. split.
    + exact (serve_pipe_fails config e fs reqPath width filename
               Hv Ho Hsrc fs' Hd Hmade Hs Hc Hfl Hpf).
    + cbn. split_and!; try done. tauto.
  - destruct Hfail as [|Hsf]; [discriminate|].
    eexists. split.
    + exact (serve_start_fails config e fs reqPath width filename
               Hv Ho Hsrc fs' Hd Hmade Hs Hc Hfl Hpf Hsf).
    + cbn. split_and!; try done. tauto.
Qed.

Lemma spawn_failure_is_sent_as_200_witness :
  validate Example.config "/480p/movie.mp4" = Some (480, "movie.mp4") /\
  start_fault Example.no_ffmpeg = true /\
  r_status (st_resp (final_state
    (serve Example.config Example.no_ffmpeg Example.disk "/480p/movie.mp4")))
  = Some 200.
Proof.
  split_and!; [reflexivity | reflexivity |].
  assert (Hsrc : is_Some (Example.disk !! origFilePath Example.config "movie.mp4"))
    by (vm_compute; eauto).
  assert (Hmade : made_dirs Example.disk (outputDir Example.config 480)
                  = (true, snd (made_dirs Example.disk (outputDir Example.config 480))))
    by (vm_compute; reflexivity).
  assert (Hmiss : snd (made_dirs Example.disk (outputDir Example.config 480))
                    !! transcodedFilePath Example.config 480 "movie.mp4" = None)
    by (vm_compute; reflexivity).
  destruct (spawn_failure_is_sent_as_200 Example.config Example.no_ffmpeg
Example.disk _ "/480p/movie.mp4" 480 "movie.mp4"
              eq_refl eq_refl Hsrc eq_refl Hmade eq_refl Hmiss eq_refl
              (or_intror eq_refl))
    as (s & Hs & Hst & _).
  rewrite Hs. exact Hst.
Defined.

(** ** The pump *)


(** ** The encoder process *)

(** C9. Whenever the handler returns, the encoder is either not
    started at all (every attempt to start it failed) or it has been
    killed and then reaped: the trace ends with the pipe closed, [Kill],
    [Wait] and the source closed, in that order, after the start. This
    covers the end of the stream, a read or write error and cancellation
    alike, since it holds on every schedule. *)
Theorem encoder_is_killed_and_reaped config e fs reqPath s :
  serve config e fs reqPath = Done tt s ->
  (st_proc s = NotStarted /\
   forall argv, In (EStart argv) (st_trace s) -> start_fault e = true) \/
  (st_proc s = Reaped /\ start_fault e = false /\
   exists pre argv name,
     In (EStart argv) pre /\
     st_trace s = pre ++ [ECloseReader; EKill; EWait; EClose name]).
Proof.
  destruct (validate config reqPath) as [[width filename]|] eqn:Hv.
  2: { destruct (serve_invalid config e fs reqPath Hv) as (code & msg & -> & _).
       intros H. injection H as <-. left. split; [reflexivity|].
       cbn. intros argv Hin. in_cases; discriminate. }
  branches Hv.
  7: { destruct (serve_pumps config e fs fs' reqPath width filename
                   Hv Ho Hsrc Hd Hmade Hs Hc Hfl Hpf Hsf)
         as (p & s' & Hp & _ & Hproc & Hstart).
       rewrite Hp. intros H. right.
       assert (Hret : ctx_wins e = true \/ p <> PumpWaiting).
       { destruct (ctx_wins e) eqn:Hw; [now left|right].
         intros ->. rewrite finish_blocks in H by exact Hw. discriminate. }
       destruct (finish_returns e (origFilePath config filename) p s' _ Hret Hproc)
         as (s2 & pre & Hf & Hreaped & _ & _ & Htr & Hpre).
       rewrite Hf in H. injection H as <-.
       split; [exact Hreaped|]. split; [reflexivity|].
       exists pre, (ffmpeg_argv (origFilePath config filename) width
                      (transcodedFilePath config width filename)),
              (origFilePath config filename).
       split; [|exact Htr].
       destruct Hpre as [-> | ->]; [exact Hstart|].
       apply in_or_app. now left. }
  all: intros H; injection H as <-; left; (split; [reflexivity|]);
    cbn; intros argv Hin; in_cases; solve [discriminate | reflexivity].
Qed.

Lemma encoder_is_killed_and_reaped_witness :
  st_proc (final_state
    (serve Example.config (Example.calm [Example.data 8; Example.cancel] true)
Example.disk "/480p/movie.mp4")) = Reaped.
Proof.
  destruct (serve Example.config (Example.calm [Example.data 8; Example.cancel] true)
Example.disk "/480p/movie.mp4") as [[] s|s] eqn:Hs.
  - destruct (encoder_is_killed_and_reaped _ _ _ _ _ Hs) as [[_ Hno]|[Hr _]].
    + exfalso. revert Hs. vm_compute. intros Hs. injection Hs as <-.
      discriminate (Hno _ (or_intror (or_intror (or_intror (or_intror
        (or_intror (or_intror (or_intror (or_introl eq_refl))))))))).
    + exact Hr.
  - exfalso. revert Hs. vm_compute. discriminate.
Defined.

(** ** The artifact under the canonical name *)

Section Artifact.

Variables (config : JSONConfig) (e : env) (fs fs' : gmap string node).
Variables (reqPath : string) (width : Z) (filename : string).

Let orig := origFilePath config filename.
Let dir := outputDir config width.
Let canon := transcodedFilePath config width filename.

  (** The request passes the checks, its source opens, its output
      directory is there, nothing is cached, and the encoder starts. *)
Hypothesis Hv : validate config reqPath = Some (width, filename).
Hypothesis Ho : open_fault e orig = false.
Hypothesis Hsrc : is_Some (fs !! orig).
Hypothesis Hd : mkdir_fault e dir = false.
Hypothesis Hmade : made_dirs fs dir = (true, fs').
Hypothesis Hs : stat_fault e canon = false.
Hypothesis Hmiss : fs' !! canon = None.
Hypothesis Hfl : has_flusher e = true.
Hypothesis Hpf : pipe_fault e = false.
Hypothesis Hsf : start_fault e = false.

  (** C1, at the inputs on which the handler fails it. The encoder is
      started with the canonical name itself as its output file, there is
      no temporary name and no rename. While the first request is still
      streaming (the pump waits for data, the handler has not returned)
      the unfinished file is there under the canonical name, and the same
      request made again at that moment finds it with [os.Stat] and hands
      it to the static file server. *)
Theorem lookup_sees_unfinished_file e2 :
    Forall (fun st => flowing st = true) (schedule e) ->
    ctx_wins e = false ->
    open_fault e2 orig = false ->
    mkdir_fault e2 dir = false ->
    stat_fault e2 canon = false ->
    exists s1,
      serve config e fs reqPath = Blocked s1 /\
      In (EStart (ffmpeg_argv orig width canon)) (st_trace s1) /\
      st_proc s1 = Running canon /\
      st_fs s1 !! canon = Some (File false (enc_partial e)) /\
      serve config e2 (st_fs s1) reqPath =
        Done tt {| st_fs := st_fs s1; st_resp := served_response canon;
                   st_proc := NotStarted; st_pipe := [];
                   st_trace := [EOpen orig; EMkdirAll dir; EStat canon;
                                EServeFile canon; EClose orig] |}.
Proof.
    intros Hflow Hw Ho2 Hd2 Hs2.
    destruct (serve_pumps config e fs fs' reqPath width filename
                Hv Ho Hsrc Hd Hmade Hs Hmiss Hfl Hpf Hsf)
      as (p & s1 & Hp & Hserve & _ & Hstart).
    destruct (pump_flowing e canon (schedule e)
                (generating config e fs' width filename) Hflow)
      as (s1' & Hp' & Hfs & Hproc).
    subst canon. rewrite Hp in Hp'. injection Hp' as -> <-.
    exists s1. rewrite Hserve, finish_blocks by exact Hw.
    split; [reflexivity|]. split; [exact Hstart|]. split; [exact Hproc|].
    rewrite Hfs. cbn [generating st_fs].
    split; [apply lookup_insert_eq|].
    exact (serve_again config fs fs' reqPath width filename Hv Hsrc Hmade Hmiss
             e2 _ Ho2 Hd2 Hs2).
Qed.

  (** C2, at the inputs on which the handler fails it. Data flows for
      a while and then the pump finds the request cancelled. The handler
      returns with the encoder killed and reaped, but it never removes the
      file: the unfinished artifact stays under the canonical name. *)
Theorem cancelled_request_keeps_unfinished_file pre st rest :
    schedule e = pre ++ st :: rest ->
    Forall (fun st => flowing st = true) pre ->
    ctx_done st = true ->
    exists s,
      serve config e fs reqPath = Done tt s /\
      st_proc s = Reaped /\
      st_fs s !! canon = Some (File false (enc_partial e)).
Proof.
    intros Hsched Hflow Hc.
    destruct (serve_pumps config e fs fs' reqPath width filename
                Hv Ho Hsrc Hd Hmade Hs Hmiss Hfl Hpf Hsf)
      as (p & s1 & Hp & Hserve & Hproc & _).
    destruct (pump_cancelled e canon pre st rest
                (generating config e fs' width filename) Hflow Hc)
      as (s1' & Hp' & Hfs & _).
    subst canon. rewrite Hsched, Hp' in Hp. injection Hp as <- <-.
    assert (Hret : ctx_wins e = true \/ PumpCancelled <> PumpWaiting)
      by (right; discriminate).
    destruct (finish_returns e orig PumpCancelled s1' _ Hret Hproc)
      as (s2 & tr & Hf & Hreaped & Hfs2 & _).
    exists s2. rewrite Hserve. split; [exact Hf|]. split; [exact Hreaped|].
    rewrite Hfs2, Hfs. apply lookup_insert_eq.
Qed.


End Artifact.

Lemma lookup_sees_unfinished_file_witness :
  let first := serve Example.config (Example.calm [Example.data 8] false)
Example.disk "/480p/movie.mp4" in
  returned first = false /\
  r_served (st_resp (final_state
    (serve Example.config (Example.calm [] false) (st_fs (final_state first))
       "/480p/movie.mp4"))) = Some "/srv/cache/480/movie.mp4".
Proof.
  destruct (lookup_sees_unfinished_file Example.config
              (Example.calm [Example.data 8] false) Example.disk Example.disk_480
              "/480p/movie.mp4" 480 "movie.mp4"
              eq_refl eq_refl example_source_opens eq_refl example_dirs_made
              eq_refl example_cache_empty eq_refl eq_refl eq_refl
              (Example.calm [] false))
    as (s1 & Hfirst & _ & _ & _ & Hsecond).
  - repeat constructor.
  - reflexivity.
  - reflexivity.
  - reflexivity.
  - reflexivity.
  - cbv zeta. rewrite Hfirst. cbn [returned final_state]. rewrite Hsecond.
    split; reflexivity.
Defined.

Lemma cancelled_request_keeps_unfinished_file_witness :
  st_fs (final_state
    (serve Example.config (Example.calm [Example.data 8; Example.cancel] true)
Example.disk "/480p/movie.mp4")) !! "/srv/cache/480/movie.mp4"
  = Some (File false Example.half).
Proof.
  destruct (cancelled_request_keeps_unfinished_file Example.config
              (Example.calm [Example.data 8; Example.cancel] true)
Example.disk Example.disk_480
              "/480p/movie.mp4" 480 "movie.mp4"
              eq_refl eq_refl example_source_opens eq_refl example_dirs_made
              eq_refl example_cache_empty eq_refl eq_refl eq_refl
              [Example.data 8] Example.cancel [])
    as (s & Hs & _ & Hfile).
  - reflexivity.
  - repeat constructor.
  - reflexivity.
  - rewrite Hs. exact Hfile.
Defined.



(** * More of the handler *)

(** ** The route pattern *)

Lemma span_digits_spec s :
  let '(d, t) := span_digits s in
  s = d +:+ t /\ all_digits d = true /\
  match t with
  | EmptyString => True
  | String c _ => is_digit c = false
  end.
Proof.
  induction s as [|c r IH]; cbn; [auto|].
  destruct (is_digit c) eqn:Hc.
  - destruct (span_digits r) as [d t]. destruct IH as (-> & Hd & Ht).
    cbn. rewrite Hc. auto.
  - cbn. auto.
Qed.

Lemma span_digits_app d t :
  all_digits d = true ->
  match t with
  | EmptyString => True
  | String c _ => is_digit c = false
  end ->
  span_digits (d +:+ t) = (d, t).
Proof.
  intros Hd Ht. induction d as [|c r IH].
  - rewrite append_nil. destruct t as [|c t]; [reflexivity|]. cbn. now rewrite Ht.
  - cbn in Hd. apply andb_true_iff in Hd as [Hc Hr].
    rewrite append_cons. cbn. rewrite Hc, (IH Hr). reflexivity.
Qed.

Lemma slash_or_not c :
  c = "/"%char \/
  forall (A : Type) (x : string -> A) (y : A),
    match c with
    | "/"%char => x
    | _ => fun _ => y
    end = fun _ => y.
Proof.
  destruct c as [[] [] [] [] [] [] [] []]; auto.
Qed.

Lemma FindStringSubmatch_shape reqPath widthStr raw :
  FindStringSubmatch reqPath = Some (widthStr, raw) ->
  reqPath = "/" +:+ widthStr +:+ "p/" +:+ raw /\
  widthStr <> "" /\ all_digits widthStr = true /\
  raw <> "" /\ has_newline raw = false.
Proof.
  unfold FindStringSubmatch. destruct reqPath as [|c rest]; [discriminate|].
  destruct c as [[] [] [] [] [] [] [] []]; try discriminate.
  pose proof (span_digits_spec rest) as Hspan.
  destruct (span_digits rest) as [d t]. destruct Hspan as (-> & Hd & _).
  destruct d as [|d ds]; [discriminate|].
  destruct t as [|c1 t]; [discriminate|].
  destruct c1 as [[] [] [] [] [] [] [] []]; try discriminate.
  destruct t as [|c2 t]; [discriminate|].
  destruct c2 as [[] [] [] [] [] [] [] []]; try discriminate.
  destruct t as [|f fs]; [discriminate|].
  destruct (has_newline (String f fs)) eqn:Hnl; [discriminate|].
  intros H. injection H as <- <-. split_and!; try done.
Qed.

Lemma FindStringSubmatch_accepts widthStr raw :
  widthStr <> "" -> all_digits widthStr = true ->
  raw <> "" -> has_newline raw = false ->
  FindStringSubmatch ("/" +:+ widthStr +:+ "p/" +:+ raw) = Some (widthStr, raw).
Proof.
  intros Hw Hd Hr Hnl.
  destruct widthStr as [|d ds]; [congruence|].
  destruct raw as [|f fs]; [congruence|].
  change ("/" +:+ String d ds +:+ "p/" +:+ String f fs)
    with (String "/" (String d ds +:+ String "p" (String "/" (String f fs)))).
  unfold FindStringSubmatch.
  rewrite (span_digits_app (String d ds) (String "p" (String "/" (String f fs))) Hd eq_refl).
  now rewrite Hnl.
Qed.

(** X1. The route is matched exactly by the paths made of a slash, a
    non-empty run of ASCII digits, the two characters [p/] and a non-empty
    rest without a line feed; the two groups are the digits and the
    rest. *)
Theorem route_matches reqPath widthStr raw :
  FindStringSubmatch reqPath = Some (widthStr, raw) <->
  reqPath = "/" +:+ widthStr +:+ "p/" +:+ raw /\
  widthStr <> "" /\ all_digits widthStr = true /\
  raw <> "" /\ has_newline raw = false.
Proof.
  split.
  - apply FindStringSubmatch_shape.
  - intros (-> & Hw & Hd & Hr & Hnl). now apply FindStringSubmatch_accepts.
Qed.

Lemma route_matches_witness :
  FindStringSubmatch "/480p/movie.mp4" = Some ("480", "movie.mp4").
Proof.
  apply (proj2 (route_matches "/480p/movie.mp4" "480" "movie.mp4")).
  split_and!; [reflexivity | discriminate | reflexivity | discriminate | reflexivity].
Defined.

(** ** The width *)

Lemma digit_val_range c : is_digit c = true -> 0 <= digit_val c <= 9.
Proof.
  unfold is_digit, digit_val. intros [H1 H2]%andb_true_iff.
  apply Nat.leb_le in H1, H2. lia.
Qed.

Lemma parse_digits_all w acc :
  all_digits w = true -> 0 <= acc ->
  exists v, parse_digits acc w = Some v /\ acc <= v.
Proof.
  revert acc. induction w as [|c r IH]; intros acc Hw Hacc; cbn.
  - exists acc. split; [reflexivity | lia].
  - cbn in Hw. apply andb_true_iff in Hw as [Hc Hr]. rewrite Hc.
    pose proof (digit_val_range c Hc).
    destruct (IH (10 * acc + digit_val c) Hr) as (v & Hv & Hle); [lia|].
    exists v. split; [exact Hv | lia].
Qed.

Lemma Atoi_unsigned w :
  w <> "" -> all_digits w = true ->
  Atoi w = match parse_digits 0 w with
           | Some v => if v <=? maxInt then Some v else None
           | None => None
           end.
Proof.
  intros Hne Hw. destruct w as [|c r]; [congruence|].
  pose proof Hw as Hw'. cbn in Hw'. apply andb_true_iff in Hw' as [Hc _].
  destruct (parse_digits_all (String c r) 0 Hw) as (v & Hv & Hpos); [lia|].
  assert (Hmin : (minInt <=? v) = true) by (apply Z.leb_le; unfold minInt; lia).
  unfold Atoi.
  destruct c as [[] [] [] [] [] [] [] []]; try discriminate;
    rewrite Hv; cbv zeta; now rewrite Hmin.
Qed.

(** X2. The width of a matched route always parses, to a number that
    is not negative; [Atoi] fails on it only when the number exceeds the
    largest [int]. *)
Theorem matched_width_parses reqPath widthStr raw :
  FindStringSubmatch reqPath = Some (widthStr, raw) ->
  exists v,
    parse_digits 0 widthStr = Some v /\ 0 <= v /\
    Atoi widthStr = if v <=? maxInt then Some v else None.
Proof.
  intros (_ & Hne & Hd & _)%FindStringSubmatch_shape.
  destruct (parse_digits_all widthStr 0 Hd) as (v & Hv & Hpos); [lia|].
  exists v. split; [exact Hv|]. split; [exact Hpos|].
  rewrite Atoi_unsigned, Hv by assumption. reflexivity.
Qed.

Lemma matched_width_parses_witness :
  exists v, Atoi "99999999999999999999" = (if v <=? maxInt then Some v else None)
            /\ Atoi "99999999999999999999" = None.
Proof.
  destruct (matched_width_parses "/99999999999999999999p/movie.mp4"
              "99999999999999999999" "movie.mp4" eq_refl) as (v & _ & _ & Hv).
  exists v. split; [exact Hv | reflexivity].
Defined.

(** X3. Zeros in front of the width make no difference: the request
    is handled exactly as the one without them, on every file system and
    in every environment, and so works on the same cache entry. *)
Theorem leading_zero_is_ignored config e fs widthStr raw :
  widthStr <> "" -> all_digits widthStr = true ->
  raw <> "" -> has_newline raw = false ->
  serve config e fs ("/0" +:+ widthStr +:+ "p/" +:+ raw)
  = serve config e fs ("/" +:+ widthStr +:+ "p/" +:+ raw).
Proof.
  intros Hne Hd Hr Hnl.
  assert (H0 : FindStringSubmatch ("/" +:+ String "0" widthStr +:+ "p/" +:+ raw)
               = Some (String "0" widthStr, raw)).
  { apply FindStringSubmatch_accepts; done. }
  assert (H1 : FindStringSubmatch ("/" +:+ widthStr +:+ "p/" +:+ raw)
               = Some (widthStr, raw)).
  { apply FindStringSubmatch_accepts; done. }
  change ("/0" +:+ widthStr +:+ "p/" +:+ raw)
    with ("/" +:+ String "0" widthStr +:+ "p/" +:+ raw).
  unfold serve, handleTranscodeRequest. rewrite H0, H1.
  rewrite (Atoi_unsigned (String "0" widthStr)) by done.
  rewrite (Atoi_unsigned widthStr) by done.
  reflexivity.
Qed.

Lemma leading_zero_is_ignored_witness :
  serve Example.config (Example.calm [Example.data 8; Example.eof] false)
    Example.disk "/0480p/movie.mp4"
  = serve Example.config (Example.calm [Example.data 8; Example.eof] false)
      Example.disk "/480p/movie.mp4".
Proof.
  apply (leading_zero_is_ignored Example.config _ Example.disk "480" "movie.mp4");
    [discriminate | reflexivity | discriminate | reflexivity].
Defined.

(** ** File names and paths *)

(** X4. A file name that passes the check of the handler is already
    clean and is not absolute; it is either [..] itself or is made only of
    proper names: no element is empty, [.] or [..], and none holds a
    separator. ([names] of the name [.] is the empty list.) *)
Theorem accepted_name_is_dotdot_or_names config reqPath width filename :
  validate config reqPath = Some (width, filename) ->
  Clean filename = filename /\
  IsAbs filename = false /\
  (filename = ".." \/ Forall (fun x => is_name x = true) (names filename)).
Proof.
  intros Hv. destruct (validate_clean config reqPath width filename Hv) as (Hc & Ha & Hs).
  split; [exact Hc|]. split; [exact Ha|]. tauto.
Qed.

Lemma accepted_name_is_dotdot_or_names_witness :
  Forall (fun x => is_name x = true) (names "a/b.mp4") /\ Clean "a/b.mp4" = "a/b.mp4".
Proof.
  destruct (accepted_name_is_dotdot_or_names Example.config "/480p/x/../a//b.mp4"
              480 "a/b.mp4" eq_refl) as (Hc & _ & [H|H]).
  - discriminate.
  - split; [exact H | exact Hc].
Defined.

(** X5. For every accepted file name other than [..], the source file
    the handler opens first lies under the input directory: its path is
    the cleaned input directory with the names of the file name appended,
    rooted exactly when the input directory is. *)
Theorem source_lies_under_input_dir config e fs reqPath width filename :
  validate config reqPath = Some (width, filename) ->
  filename <> ".." ->
  exists name tail,
    st_trace (final_state (serve config e fs reqPath)) = EOpen name :: tail /\
    name = render (rooted (InputDir config))
             (elems (InputDir config) ++ names filename) /\
    Clean (InputDir config)
      = render (rooted (InputDir config)) (elems (InputDir config)) /\
    elems name = elems (InputDir config) ++ names filename /\
    rooted name = rooted (InputDir config) /\
    Forall (fun x => is_name x = true) (names filename).
Proof.
  intros Hv Hdd.
  destruct (validate_clean config reqPath width filename Hv) as (_ & _ & [?|[Hn Hr]]);
    [contradiction|].
  destruct (serve_trace_head config e fs reqPath width filename Hv) as (tail & Ht & _).
  destruct (Join_names (InputDir config) filename Hn Hr) as [HJ HC].
  destruct (elems_render _ _ HC) as [He Hro].
  exists (origFilePath config filename), tail. unfold origFilePath in *.
  rewrite HJ in *. split_and!; try done. apply Clean_render.
Qed.

Lemma source_lies_under_input_dir_witness :
  elems "/srv/videos/a/b.mp4" = ["srv"; "videos"] ++ ["a"; "b.mp4"].
Proof.
  destruct (source_lies_under_input_dir Example.config (Example.calm [] false)
              Example.disk "/480p/x/../a//b.mp4" 480 "a/b.mp4" eq_refl)
    as (name & tail & Ht & Hname & _ & He & _); [discriminate|].
  assert (name = "/srv/videos/a/b.mp4") as -> by (rewrite Hname; reflexivity).
  exact He.
Defined.

(** X6. The cache path tells the width and the file name: two
    accepted requests whose file names are not [..] share an artifact
    only when they have the same width and the same cleaned name. *)
Theorem cache_path_is_injective config reqPath1 reqPath2 width1 width2 name1 name2 :
  validate config reqPath1 = Some (width1, name1) ->
  validate config reqPath2 = Some (width2, name2) ->
  name1 <> ".." -> name2 <> ".." ->
  transcodedFilePath config width1 name1 = transcodedFilePath config width2 name2 ->
  width1 = width2 /\ name1 = name2.
Proof.
  intros Hv1 Hv2 Hd1 Hd2 Heq.
  destruct (validate_clean _ _ _ _ Hv1) as (_ & _ & [?|[Hn1 Hr1]]); [contradiction|].
  destruct (validate_clean _ _ _ _ Hv2) as (_ & _ & [?|[Hn2 Hr2]]); [contradiction|].
  destruct (transcodedFilePath_render config width1 name1 Hn1 Hr1) as [E1 C1].
  destruct (transcodedFilePath_render config width2 name2 Hn2 Hr2) as [E2 C2].
  destruct (elems_render _ _ C1) as [L1 _]. destruct (elems_render _ _ C2) as [L2 _].
  rewrite <- E1 in L1. rewrite <- E2 in L2. rewrite Heq, L2 in L1.
  apply app_inv_head in L1. injection L1 as Hw Hn.
  split; [symmetry; now apply Itoa_inj|].
  rewrite Hr1, Hr2. now rewrite Hn.
Qed.

Lemma cache_path_is_injective_witness :
  transcodedFilePath Example.config 480 "movie.mp4"
  <> transcodedFilePath Example.config 720 "movie.mp4".
Proof.
  intros H.
  destruct (cache_path_is_injective Example.config "/480p/movie.mp4" "/720p/movie.mp4"
              480 720 "movie.mp4" "movie.mp4" eq_refl eq_refl) as [Hw _];
    [discriminate | discriminate | exact H | discriminate].
Defined.

(** X7. Where the artifact goes: for an accepted file name other
    than [..] the canonical path is the cleaned output directory, then the
    width in decimal as one directory, then the names of the file name. *)
Theorem cache_path_layout config reqPath width filename :
  validate config reqPath = Some (width, filename) ->
  filename <> ".." ->
  transcodedFilePath config width filename
    = render (rooted (OutputDir config))
        (elems (OutputDir config) ++ Itoa width :: names filename) /\
  outputDir config width
    = render (rooted (OutputDir config)) (elems (OutputDir config) ++ [Itoa width]) /\
  is_name (Itoa width) = true.
Proof.
  intros Hv Hdd.
  destruct (validate_clean _ _ _ _ Hv) as (_ & _ & [?|[Hn Hr]]); [contradiction|].
  split; [apply (transcodedFilePath_render config width filename Hn Hr)|].
  split; [apply outputDir_render | apply Itoa_name].
Qed.

Lemma cache_path_layout_witness :
  transcodedFilePath Example.config 480 "a/b.mp4"
  = render true (["srv"; "cache"] ++ ["480"; "a"; "b.mp4"]).
Proof.
  destruct (cache_path_layout Example.config "/480p/a/b.mp4" 480 "a/b.mp4" eq_refl)
    as (H & _); [discriminate|].
  rewrite H. reflexivity.
Defined.

(** ** [Itoa] and [Atoi] *)

Lemma parse_uint_acc d acc :
  parse_digits (Z.pos acc) (NilEmpty.string_of_uint d)
  = Some (Z.pos (Pos.of_uint_acc d acc)).
Proof.
  revert acc. induction d; intros acc; cbn [NilEmpty.string_of_uint parse_digits];
    [reflexivity|..];
    match goal with
    | |- context [is_digit ?c] => replace (is_digit c) with true by reflexivity
    end;
    cbn [Pos.of_uint_acc]; rewrite <- IHd; f_equal;
    match goal with
    | |- context [digit_val ?c] =>
        let v := eval vm_compute in (digit_val c) in change (digit_val c) with v
    end;
    lia.
Qed.

Lemma parse_uint d :
  parse_digits 0 (NilEmpty.string_of_uint d) = Some (Z.of_N (Pos.of_uint d)).
Proof.
  induction d; cbn [NilEmpty.string_of_uint parse_digits Pos.of_uint];
    [reflexivity|..];
    match goal with
    | |- context [is_digit ?c] => replace (is_digit c) with true by reflexivity
    end;
    [exact IHd|..];
    match goal with
    | |- parse_digits ?a _ = Some (Z.of_N (N.pos (Pos.of_uint_acc _ ?k))) =>
        change a with (Z.pos k)
    end;
    apply parse_uint_acc.
Qed.

Lemma uint_all_digits d : all_digits (NilEmpty.string_of_uint d) = true.
Proof. induction d; cbn; [reflexivity|exact IHd..]. Qed.

Lemma to_uint_string p :
  NilZero.string_of_uint (Pos.to_uint p) = NilEmpty.string_of_uint (Pos.to_uint p) /\
  NilEmpty.string_of_uint (Pos.to_uint p) <> "".
Proof.
  pose proof (DecimalPos.Unsigned.to_uint_nonnil p) as Hn.
  destruct (Pos.to_uint p); [congruence|split; [reflexivity|discriminate]..].
Qed.

(** X8. [Itoa] followed by [Atoi] is the identity on every [int]:
    the directory name written for a width reads back as that width. *)
Theorem Atoi_Itoa n :
  minInt <= n <= maxInt -> Atoi (Itoa n) = Some n.
Proof.
  intros Hn. unfold Itoa. destruct n as [|p|p]; cbn [Z.to_int NilZero.string_of_int].
  - reflexivity.
  - destruct (to_uint_string p) as [-> Hne].
    rewrite Atoi_unsigned by (exact Hne || apply uint_all_digits).
    rewrite parse_uint, DecimalPos.Unsigned.of_to. cbn [Z.of_N].
    destruct (Z.leb_spec (Z.pos p) maxInt); [reflexivity | lia].
  - destruct (to_uint_string p) as [-> Hne]. unfold Atoi.
    destruct (NilEmpty.string_of_uint (Pos.to_uint p)) as [|c r] eqn:Hs; [congruence|].
    rewrite <- Hs, parse_uint, DecimalPos.Unsigned.of_to. cbn [Z.of_N].
    cbv zeta. change (- Z.pos p) with (Z.neg p).
    destruct (Z.leb_spec minInt (Z.neg p)); [|lia].
    destruct (Z.leb_spec (Z.neg p) maxInt); [reflexivity | lia].
Qed.

Lemma Atoi_Itoa_witness : Atoi (Itoa 1080) = Some 1080.
Proof. apply Atoi_Itoa. unfold minInt, maxInt. lia. Defined.

(** ** Requests that are turned down *)

(** X9. A request that fails the checks at the head of the handler
    touches nothing: no file is opened, no directory made, no process
    started. An unmatched route is answered with 404 "Not Found"; a
    matched one with 400, "Invalid Width" or "Invalid file path". *)
Theorem invalid_request_touches_nothing config e fs reqPath :
  validate config reqPath = None ->
  (FindStringSubmatch reqPath = None /\
   serve config e fs reqPath = rejected fs 404 "Not Found") \/
  (exists widthStr raw,
     FindStringSubmatch reqPath = Some (widthStr, raw) /\
     (serve config e fs reqPath = rejected fs 400 "Invalid Width" \/
      (Contains (Clean raw) "../" || IsAbs (Clean raw) = true /\
       serve config e fs reqPath = rejected fs 400 "Invalid file path"))).
Proof.
  unfold validate. intros H.
  destruct (FindStringSubmatch reqPath) as [[widthStr raw]|] eqn:Hm.
  2: { left. split; [reflexivity|]. now apply serve_no_route. }
  right. exists widthStr, raw. split; [reflexivity|].
  destruct (Atoi widthStr) as [w|] eqn:Ha.
  - destruct (widthFound w (Widths config)) eqn:Hf.
    + destruct (Contains (Clean raw) "../" || IsAbs (Clean raw)) eqn:Hp; [|discriminate].
      right. split; [reflexivity|].
      eapply serve_bad_path; eauto. now apply widthFound_In.
    + left. eapply serve_bad_width; eauto. intros w' Hw' Hin.
      assert (w' = w) as -> by congruence.
      apply widthFound_In in Hin. congruence.
  - left. eapply serve_bad_width; eauto. intros w' Hw'. congruence.
Qed.

Lemma invalid_request_touches_nothing_witness :
  serve Example.config (Example.calm [] false) Example.disk "/480p/" =
    rejected Example.disk 404 "Not Found".
Proof.
  destruct (invalid_request_touches_nothing Example.config (Example.calm [] false)
              Example.disk "/480p/" eq_refl) as [[_ H]|(w & raw & H & _)].
  - exact H.
  - discriminate.
Defined.

Lemma names_no_dotdot f :
  Forall (fun x => is_name x = true) (names f) -> ~ In ".." (split_slash f).
Proof.
  unfold names. destruct (string_eqb f ".") eqn:Hd.
  - apply string_eqb_true in Hd. subst. intros _ [H|[]]. discriminate.
  - intros H Hin. rewrite List.Forall_forall in H. specialize (H _ Hin). discriminate.
Qed.

(** X10. What the check of the file name does catch: for a matched
    request with a permitted width, a cleaned file name that is absolute,
    or that has an element [..] and is not [..] itself, is answered with
    400 "Invalid file path" and nothing is touched. *)
Theorem traversal_is_rejected config e fs reqPath widthStr raw width :
  FindStringSubmatch reqPath = Some (widthStr, raw) ->
  Atoi widthStr = Some width ->
  In width (Widths config) ->
  IsAbs (Clean raw) = true \/
  (In ".." (split_slash (Clean raw)) /\ Clean raw <> "..") ->
  serve config e fs reqPath = rejected fs 400 "Invalid file path".
Proof.
  intros Hm Ha Hw Hbad. eapply serve_bad_path; eauto.
  destruct (IsAbs (Clean raw)) eqn:Habs; [apply orb_true_r|].
  destruct Hbad as [|[Hin Hne]]; [discriminate|].
  destruct (Contains (Clean raw) "../") eqn:Hc; [reflexivity|].
  destruct (accepted_shape raw Habs Hc) as [|[Hn _]]; [contradiction|].
  now apply names_no_dotdot in Hn.
Qed.

Lemma traversal_is_rejected_witness :
  serve Example.config (Example.calm [] false) Example.disk "/480p/a/../../etc/passwd"
  = rejected Example.disk 400 "Invalid file path".
Proof.
  apply (traversal_is_rejected Example.config _ Example.disk
           "/480p/a/../../etc/passwd" "480" "a/../../etc/passwd" 480).
  - reflexivity.
  - reflexivity.
  - cbn. auto.
  - right. split; [vm_compute; auto | vm_compute; discriminate].
Defined.

(** ** The response while streaming *)

Lemma written_closing tr name :
  written (tr ++ [ECloseReader; EKill; EWait; EClose name]) = written tr.
Proof. rewrite written_app. cbn. apply app_nil_r. Qed.

Lemma written_log tr msg : written (tr ++ [ELog msg]) = written tr.
Proof. rewrite written_app. cbn. apply app_nil_r. Qed.

(** What [finish] leaves of the state the pump stopped in. *)
Lemma finish_keeps e orig p s out :
  st_proc s = Running out \/ st_proc s = Terminated ->
  st_resp (final_state (finish e orig (Done p s))) = st_resp s /\
  st_fs (final_state (finish e orig (Done p s))) = st_fs s /\
  written (st_trace (final_state (finish e orig (Done p s)))) = written (st_trace s).
Proof.
  intros Hproc.
  destruct (ctx_wins e) eqn:Hw; [|destruct (decide (p = PumpWaiting)) as [->|Hne]].
  - destruct (finish_returns e orig p s out (or_introl Hw) Hproc)
      as (s2 & pre & -> & _ & Hfs & Hresp & Htr & Hpre).
    cbn [final_state]. rewrite Htr, written_closing.
    destruct Hpre as [-> | ->]; rewrite ?written_log; auto.
  - rewrite finish_blocks by exact Hw. auto.
  - destruct (finish_returns e orig p s out (or_intror Hne) Hproc)
      as (s2 & pre & -> & _ & Hfs & Hresp & Htr & Hpre).
    cbn [final_state]. rewrite Htr, written_closing.
    destruct Hpre as [-> | ->]; rewrite ?written_log; auto.
Qed.

(** X11. A request that gets as far as starting the encoder is
    answered with status 200 and the headers of a chunked video stream.
    Whatever happens then and whenever one looks, the body sent so far is
    the chunks written, in order, and is a prefix of what the encoder
    writes to its standard output; there have been as many flushes as
    chunks. *)
Theorem streamed_body_is_prefix_of_live_stream
    config e fs fs' reqPath width filename :
  validate config reqPath = Some (width, filename) ->
  open_fault e (origFilePath config filename) = false ->
  is_Some (fs !! origFilePath config filename) ->
  mkdir_fault e (outputDir config width) = false ->
  made_dirs fs (outputDir config width) = (true, fs') ->
  stat_fault e (transcodedFilePath config width filename) = false ->
  fs' !! transcodedFilePath config width filename = None ->
  has_flusher e = true -> pipe_fault e = false -> start_fault e = false ->
  let s := final_state (serve config e fs reqPath) in
  r_status (st_resp s) = Some 200 /\
  r_sent (st_resp s) = stream_header /\
  r_body (st_resp s) = List.concat (written (st_trace s)) /\
  r_flushes (st_resp s) = length (written (st_trace s)) /\
  exists rest, enc_live e = r_body (st_resp s) ++ rest.
Proof.
  intros Hv Ho Hsrc Hd Hmade Hs Hmiss Hfl Hpf Hsf.
  destruct (serve_pumps config e fs fs' reqPath width filename
              Hv Ho Hsrc Hd Hmade Hs Hmiss Hfl Hpf Hsf)
    as (p & s' & Hp & Hserve & Hproc & _).
  destruct (pump_response e (transcodedFilePath config width filename) (schedule e)
              (generating config e fs' width filename))
    as (p' & s'' & evs & Hp' & Htr & Hb & Hf & (rest & Hpipe) & _ & Hst).
  rewrite Hp in Hp'. injection Hp' as <- <-.
  destruct (finish_keeps e (origFilePath config filename) p s' _ Hproc)
    as (Hresp & _ & Hwr).
  cbv zeta. rewrite Hserve, Hresp, Hwr, Htr, written_app.
  destruct (Hst 200 eq_refl) as (H1 & H2 & _).
  cbn [generating st_resp st_trace st_pipe r_body r_flushes r_sent written app] in *.
  split_and!; [exact H1 | exact H2 | exact Hb | exact Hf |].
  exists rest. now rewrite Hb.
Qed.

Lemma streamed_body_is_prefix_of_live_stream_witness :
  r_body (st_resp (final_state
    (serve Example.config (Example.calm [Example.data 4; Example.data 4] false)
       Example.disk "/480p/movie.mp4"))) = bytes_of "moofmdat".
Proof.
  destruct (streamed_body_is_prefix_of_live_stream Example.config
              (Example.calm [Example.data 4; Example.data 4] false)
              Example.disk Example.disk_480 "/480p/movie.mp4" 480 "movie.mp4"
              eq_refl eq_refl example_source_opens eq_refl example_dirs_made
              eq_refl example_cache_empty eq_refl eq_refl eq_refl)
    as (_ & _ & Hb & _).
  rewrite Hb. vm_compute. reflexivity.
Defined.

(** X12. The three shapes of a response. On every request, in every
    environment, the handler ends in one of three ways: the status line
    200 with the headers of a video stream is on the wire; or a plain-text
    error with status 400, 404 or 500 was sent and no encoder was ever
    started; or the response was handed to the static file server, again
    with no encoder started. *)
Theorem response_shapes config e fs reqPath :
  let s := final_state (serve config e fs reqPath) in
  (r_status (st_resp s) = Some 200 /\ r_sent (st_resp s) = stream_header /\
   r_served (st_resp s) = None) \/
  (exists code msg,
     (code = 400 \/ code = 404 \/ code = 500) /\
     st_resp s = error_response code msg /\ st_proc s = NotStarted) \/
  (exists name, st_resp s = served_response name /\ st_proc s = NotStarted).
Proof.
  cbv zeta.
  destruct (validate config reqPath) as [[width filename]|] eqn:Hv.
  2: { destruct (serve_invalid config e fs reqPath Hv) as (code & msg & -> & Hc).
       right. left. exists code, msg. cbn. intuition. }
  branches Hv.
  7: { destruct (serve_pumps config e fs fs' reqPath width filename
                   Hv Ho Hsrc Hd Hmade Hs Hc Hfl Hpf Hsf)
         as (p & s' & Hp & _ & Hproc & _).
       destruct (pump_response e (transcodedFilePath config width filename) (schedule e)
                   (generating config e fs' width filename))
         as (p' & s'' & evs & Hp' & _ & _ & _ & _ & Hsv & Hst).
       rewrite Hp in *. injection Hp' as <- <-.
       destruct (finish_keeps e (origFilePath config filename) p s' _ Hproc)
         as (Hresp & _ & _).
       rewrite Hresp. destruct (Hst 200 eq_refl) as (H1 & H2 & _).
       left. split_and!; [exact H1 | exact H2 | exact Hsv]. }
  4: { right. right. eexists. cbn. split; reflexivity. }
  4, 5: left; cbn; split_and!; reflexivity.
  all: right; left; eexists _, _; cbn; split_and!; try reflexivity; auto.
Qed.

(** ** Errors while streaming *)

Lemma turn_read_error e path st s :
  ctx_done st = false -> wr_ok st = true -> rd_err st = ErrRead ->
  exists s1,
    turn e path st s = Done (Some PumpReadError) s1 /\
    st_fs s1 = delete path (st_fs s) /\
    st_proc s1 = st_proc s /\
    In (ERemove path) (st_trace s1).
Proof.
  intros Hc Hw Hr. unfold turn. rewrite Hc, Hr, Hw.
  destruct s as [fs0 resp0 proc0 pipe0 trace0]. exec.
  destruct (take _ _); eexists; (split_and!; [reflexivity | reflexivity | reflexivity |]);
    cbn [st_trace]; rewrite !in_app_iff; cbn; tauto.
Qed.

(** X13. A read error in the middle of the stream: data flows for a
    while and then a read from the encoder fails with an error that is not
    the end of the stream. The handler removes the unfinished artifact,
    returns, and has killed and reaped the encoder; nothing is left under
    the canonical name. *)
Theorem read_error_removes_artifact
    config e fs fs' reqPath width filename pre st rest :
  validate config reqPath = Some (width, filename) ->
  open_fault e (origFilePath config filename) = false ->
  is_Some (fs !! origFilePath config filename) ->
  mkdir_fault e (outputDir config width) = false ->
  made_dirs fs (outputDir config width) = (true, fs') ->
  stat_fault e (transcodedFilePath config width filename) = false ->
  fs' !! transcodedFilePath config width filename = None ->
  has_flusher e = true -> pipe_fault e = false -> start_fault e = false ->
  schedule e = pre ++ st :: rest ->
  Forall (fun st => flowing st = true) pre ->
  ctx_done st = false -> wr_ok st = true -> rd_err st = ErrRead ->
  exists s,
    serve config e fs reqPath = Done tt s /\
    st_proc s = Reaped /\
    st_fs s !! transcodedFilePath config width filename = None /\
    st_fs s = fs'.
Proof.
  intros Hv Ho Hsrc Hd Hmade Hs Hmiss Hfl Hpf Hsf Hsched Hflow Hc Hw Hr.
  destruct (serve_pumps config e fs fs' reqPath width filename
              Hv Ho Hsrc Hd Hmade Hs Hmiss Hfl Hpf Hsf)
    as (p & s1 & Hp & Hserve & Hproc & _).
  set (canon := transcodedFilePath config width filename) in *.
  destruct (pump_flowing e canon pre (generating config e fs' width filename) Hflow)
    as (s0 & Hp0 & Hfs0 & Hproc0).
  destruct (turn_read_error e canon st s0 Hc Hw Hr) as (s1' & Ht & Hfs1 & Hproc1 & _).
  rewrite Hsched, pump_app, Hp0, pump_cons, Ht in Hp. injection Hp as <- <-.
  assert (Hret : ctx_wins e = true \/ PumpReadError <> PumpWaiting)
    by (right; discriminate).
  destruct (finish_returns e (origFilePath config filename) PumpReadError s1' _ Hret Hproc)
    as (s2 & tr & Hf & Hreaped & Hfs2 & _).
  exists s2. rewrite Hserve.
  assert (Hdisk : st_fs s2 = fs').
  { rewrite Hfs2, Hfs1, Hfs0. cbn [generating st_fs]. fold canon.
    rewrite delete_insert_eq. now apply delete_id. }
  split_and!; [exact Hf | exact Hreaped | now rewrite Hdisk | exact Hdisk].
Qed.

Lemma read_error_removes_artifact_witness :
  st_fs (final_state
    (serve Example.config
       (Example.calm [Example.data 8;
                      {| ctx_done := false; rd_avail := 0; rd_err := ErrRead;
                         wr_ok := true |}] false)
       Example.disk "/480p/movie.mp4")) !! "/srv/cache/480/movie.mp4" = None.
Proof.
  destruct (read_error_removes_artifact Example.config
              (Example.calm [Example.data 8;
                             {| ctx_done := false; rd_avail := 0; rd_err := ErrRead;
                                wr_ok := true |}] false)
              Example.disk Example.disk_480 "/480p/movie.mp4" 480 "movie.mp4"
              [Example.data 8]
              {| ctx_done := false; rd_avail := 0; rd_err := ErrRead; wr_ok := true |}
              []
              eq_refl eq_refl example_source_opens eq_refl example_dirs_made
              eq_refl example_cache_empty eq_refl eq_refl eq_refl eq_refl)
    as (s & Hs & _ & Hnone & _).
  - repeat constructor.
  - reflexivity.
  - reflexivity.
  - reflexivity.
  - rewrite Hs. exact Hnone.
Defined.

(** ** When the handler does not return *)

(** X14. The handler can only wait for ever after it has started the
    encoder, and only while no turn of the pump has found the context
    done or read an error or the end of the stream, and the final select
    does not see the context done either. *)
Theorem handler_waits_only_for_encoder config e fs reqPath s :
  serve config e fs reqPath = Blocked s ->
  ctx_wins e = false /\
  start_fault e = false /\
  Forall (fun st => ctx_done st = false /\ rd_err st = ErrNil) (schedule e) /\
  exists argv, In (EStart argv) (st_trace s).
Proof.
  destruct (validate config reqPath) as [[width filename]|] eqn:Hv.
  2: { destruct (serve_invalid config e fs reqPath Hv) as (code & msg & -> & _).
       discriminate. }
  branches Hv; try discriminate.
  destruct (serve_pumps config e fs fs' reqPath width filename
              Hv Ho Hsrc Hd Hmade Hs Hc Hfl Hpf Hsf)
    as (p & s' & Hp & _ & Hproc & Hstart).
  rewrite Hp. intros H.
  destruct (ctx_wins e) eqn:Hw; [|destruct (decide (p = PumpWaiting)) as [->|Hne]].
  - destruct (finish_returns e (origFilePath config filename) p s' _ (or_introl Hw) Hproc)
      as (s2 & pre & Hf & _). rewrite Hf in H. discriminate.
  - rewrite finish_blocks in H by exact Hw. injection H as <-.
    split; [reflexivity|]. split; [reflexivity|].
    split; [exact (pump_stops _ _ _ _ _ _ Hp)|]. eauto.
  - destruct (finish_returns e (origFilePath config filename) p s' _ (or_intror Hne) Hproc)
      as (s2 & pre & Hf & _). rewrite Hf in H. discriminate.
Qed.

Lemma handler_waits_only_for_encoder_witness :
  ctx_wins (Example.calm [Example.data 8] false) = false /\
  returned (serve Example.config (Example.calm [Example.data 8] false)
              Example.disk "/480p/movie.mp4") = false.
Proof.
  destruct (serve Example.config (Example.calm [Example.data 8] false)
              Example.disk "/480p/movie.mp4") as [[] s|s] eqn:Hs.
  - exfalso. revert Hs. vm_compute. discriminate.
  - destruct (handler_waits_only_for_encoder _ _ _ _ _ Hs) as (Hw & _).
    split; [exact Hw | reflexivity].
Defined.

(** ** The source file *)

(** X15. The source file is closed on every way out: when the
    handler returns after the source has opened, the last thing it did
    was to close it; when the source did not open, nothing is closed. *)
Theorem source_is_closed_on_return config e fs reqPath width filename s :
  validate config reqPath = Some (width, filename) ->
  serve config e fs reqPath = Done tt s ->
  (open_fault e (origFilePath config filename) = false ->
   is_Some (fs !! origFilePath config filename) ->
   exists pre, st_trace s = pre ++ [EClose (origFilePath config filename)]) /\
  (open_fault e (origFilePath config filename) = true \/
   fs !! origFilePath config filename = None ->
   forall name, ~ In (EClose name) (st_trace s)).
Proof.
  intros Hv. branches Hv.
  7: { destruct (serve_pumps config e fs fs' reqPath width filename
                   Hv Ho Hsrc Hd Hmade Hs Hc Hfl Hpf Hsf)
         as (p & s' & Hp & _ & Hproc & _).
       rewrite Hp. intros H. split.
       - intros _ _.
         assert (Hret : ctx_wins e = true \/ p <> PumpWaiting).
         { destruct (ctx_wins e) eqn:Hw; [now left|right].
           intros ->. rewrite finish_blocks in H by exact Hw. discriminate. }
         destruct (finish_returns e (origFilePath config filename) p s' _ Hret Hproc)
           as (s2 & pre & Hf & _ & _ & _ & Htr & _).
         rewrite Hf in H. injection H as <-.
         exists (pre ++ [ECloseReader; EKill; EWait]).
         now rewrite Htr, <- app_assoc.
       - intros [|Hn]; [discriminate|]. destruct Hsrc as [? Hsrc']. congruence. }
  1, 9: intros H; injection H as <-; split;
    [ intros Ho' Hs'; try discriminate; destruct Hs' as [? Hs']; discriminate
    | intros _ name Hin; unfold error_trace in Hin; cbn in Hin; in_cases; discriminate ].
  all: intros H; injection H as <-; split;
    [ intros _ _; unfold error_trace; cbn [st_trace app];
      match goal with
      | |- exists pre, ?l = pre ++ _ => exists (removelast l); reflexivity
      end
    | intros [|Hn]; [discriminate | destruct Hsrc as [? Hsrc']; congruence] ].
Qed.

Lemma source_is_closed_on_return_witness :
  exists pre,
    st_trace (final_state
      (serve Example.config Example.read_only Example.disk "/480p/movie.mp4"))
    = pre ++ [EClose "/srv/videos/movie.mp4"].
Proof.
  destruct (serve Example.config Example.read_only Example.disk "/480p/movie.mp4")
    as [[] s|s] eqn:Hs.
  - destruct (source_is_closed_on_return Example.config Example.read_only Example.disk
                "/480p/movie.mp4" 480 "movie.mp4" s eq_refl Hs) as [H _].
    destruct (H eq_refl example_source_opens) as [pre Hpre].
    exists pre. exact Hpre.
  - exfalso. revert Hs. vm_compute. discriminate.
Defined.

(** ** What the pump and the handler leave alone *)

Section PumpFrame.

Variable e : env.
Variable path : string.

Lemma turn_frame st s :
  st_proc s = Running path \/ st_proc s = Terminated ->
  exists r s1 evs,
    turn e path st s = Done r s1 /\
    st_trace s1 = st_trace s ++ evs /\
    Forall (fun ev => is_pump_event ev = true) evs /\
    (forall name, In (ERemove name) evs -> name = path) /\
    (st_proc s1 = Running path \/ st_proc s1 = Terminated) /\
    (forall k, k <> path -> st_fs s1 !! k = st_fs s !! k).
Proof.
  intros Hproc.
  destruct (ctx_done st) eqn:Hc.
  { exists (Some PumpCancelled), s, []. unfold turn. rewrite Hc.
    rewrite !app_nil_r. split_and!; try done; try constructor. }
  unfold turn. rewrite Hc.
  destruct s as [fs0 resp0 proc0 pipe0 trace0]. cbn [st_proc] in Hproc.
  destruct (rd_err st) as [|clean|] eqn:Hr; destruct Hproc as [-> | ->];
    try destruct clean; exec.
  all: destruct (take _ pipe0) as [|b chunk] eqn:Ht.
  all: try destruct (wr_ok st) eqn:Hw.
  all: eexists _, _, _; (split; [reflexivity|]); cbn [st_trace st_fs st_proc].
  all: rewrite <- ?app_assoc; (split; [reflexivity|]).
  all: cbn [app].
  all: split_and!; auto.
  all: try (repeat constructor).
  all: try (intros name Hin; in_cases; try discriminate; congruence).
  all: try (intros k Hk; rewrite ?lookup_delete_ne, ?lookup_insert_ne by congruence;
            reflexivity).
Qed.

Lemma pump_frame sched s :
  st_proc s = Running path \/ st_proc s = Terminated ->
  exists p s' evs,
    pump e path sched s = Done p s' /\
    st_trace s' = st_trace s ++ evs /\
    Forall (fun ev => is_pump_event ev = true) evs /\
    (forall name, In (ERemove name) evs -> name = path) /\
    (forall k, k <> path -> st_fs s' !! k = st_fs s !! k).
Proof.
  revert s. induction sched as [|st rest IH]; intros s Hproc.
  { exists PumpWaiting, s, []. rewrite app_nil_r. split_and!; try done; try constructor. }
  destruct (turn_frame st s Hproc) as (r & s1 & evs1 & Ht & Htr & Hk & Hrm & Hp1 & Hfs).
  rewrite pump_cons, Ht. destruct r as [p|].
  - exists p, s1, evs1. split_and!; done.
  - destruct (IH s1 Hp1) as (p & s' & evs2 & Hp & Htr2 & Hk2 & Hrm2 & Hfs2).
    exists p, s', (evs1 ++ evs2). split_and!.
    + exact Hp.
    + now rewrite Htr2, Htr, app_assoc.
    + apply Forall_app. auto.
    + intros name [H|H]%in_app_or; auto.
    + intros k Hne. rewrite Hfs2, Hfs by exact Hne. reflexivity.
Qed.

End PumpFrame.

Lemma finish_trace e orig p s out :
  st_proc s = Running out \/ st_proc s = Terminated ->
  exists tail,
    st_trace (final_state (finish e orig (Done p s))) = st_trace s ++ tail /\
    Forall (fun ev => is_start ev = false /\ is_remove ev = false) tail.
Proof.
  intros Hproc.
  destruct (ctx_wins e) eqn:Hw; [|destruct (decide (p = PumpWaiting)) as [->|Hne]].
  - destruct (finish_returns e orig p s out (or_introl Hw) Hproc)
      as (s2 & pre & -> & _ & _ & _ & Htr & Hpre).
    cbn [final_state]. rewrite Htr.
    destruct Hpre as [-> | ->]; rewrite <- ?app_assoc; eexists; split; try reflexivity;
      repeat constructor.
  - rewrite finish_blocks by exact Hw. exists []. rewrite app_nil_r. split; [reflexivity|].
    constructor.
  - destruct (finish_returns e orig p s out (or_intror Hne) Hproc)
      as (s2 & pre & -> & _ & _ & _ & Htr & Hpre).
    cbn [final_state]. rewrite Htr.
    destruct Hpre as [-> | ->]; rewrite <- ?app_assoc; eexists; split; try reflexivity;
      repeat constructor.
Qed.

(** The whole of a request that starts the encoder: the trace up to the
    start, the calls of the pump, and what follows the pump; the file
    system differs from the one [MkdirAll] left at the canonical name
    only. *)
Lemma serve_generation_frame config e fs fs' reqPath width filename :
  validate config reqPath = Some (width, filename) ->
  open_fault e (origFilePath config filename) = false ->
  is_Some (fs !! origFilePath config filename) ->
  mkdir_fault e (outputDir config width) = false ->
  made_dirs fs (outputDir config width) = (true, fs') ->
  stat_fault e (transcodedFilePath config width filename) = false ->
  fs' !! transcodedFilePath config width filename = None ->
  has_flusher e = true -> pipe_fault e = false -> start_fault e = false ->
  exists evs tail,
    st_trace (final_state (serve config e fs reqPath))
      = st_trace (generating config e fs' width filename) ++ evs ++ tail /\
    Forall (fun ev => is_pump_event ev = true) evs /\
    (forall name, In (ERemove name) evs ->
                  name = transcodedFilePath config width filename) /\
    Forall (fun ev => is_start ev = false /\ is_remove ev = false) tail /\
    (forall k, k <> transcodedFilePath config width filename ->
               st_fs (final_state (serve config e fs reqPath)) !! k = fs' !! k).
Proof.
  intros Hv Ho Hsrc Hd Hmade Hs Hmiss Hfl Hpf Hsf.
  destruct (serve_pumps config e fs fs' reqPath width filename
              Hv Ho Hsrc Hd Hmade Hs Hmiss Hfl Hpf Hsf)
    as (p & s' & Hp & Hserve & Hproc & _).
  destruct (pump_frame e (transcodedFilePath config width filename) (schedule e)
              (generating config e fs' width filename) (or_introl eq_refl))
    as (p' & s'' & evs & Hp' & Htr & Hk & Hrm & Hfs).
  rewrite Hp in Hp'. injection Hp' as <- <-.
  destruct (finish_trace e (origFilePath config filename) p s' _ Hproc) as (tail & Ht & Htail).
  destruct (finish_keeps e (origFilePath config filename) p s' _ Hproc) as (_ & Hfs2 & _).
  exists evs, tail. rewrite Hserve, Ht, Htr, Hfs2, <- app_assoc.
  split_and!; try done.
  intros k Hne. rewrite Hfs by exact Hne. cbn [generating st_fs].
  now rewrite lookup_insert_ne by congruence.
Qed.

(** X16. The handler never removes or changes what is on the disk
    already: every file and directory that exists before a request exists
    unchanged after it (or at any moment the handler is waiting). What the
    request adds are directories and the artifact. *)
Theorem existing_entries_are_kept config e fs reqPath k n :
  fs !! k = Some n ->
  st_fs (final_state (serve config e fs reqPath)) !! k = Some n.
Proof.
  intros Hk.
  destruct (validate config reqPath) as [[width filename]|] eqn:Hv.
  2: { destruct (serve_invalid config e fs reqPath Hv) as (code & msg & -> & _).
       exact Hk. }
  branches Hv.
  7: { destruct (serve_generation_frame config e fs fs' reqPath width filename
                   Hv Ho Hsrc Hd Hmade Hs Hc Hfl Hpf Hsf)
         as (evs & tail & _ & _ & _ & _ & Hfs).
       pose proof (mkdirs_mono _ _ _ _ Hmade _ _ Hk) as Hk'.
       rewrite <- (serve_generates config e fs reqPath width filename
                     Hv Ho Hsrc fs' Hd Hmade Hs Hc Hfl Hpf Hsf).
       rewrite Hfs; [exact Hk'|]. intros ->. congruence. }
  all: cbn [final_state st_fs]; try exact Hk;
    exact (mkdirs_mono _ _ _ _ Hmade _ _ Hk).
Qed.

Lemma existing_entries_are_kept_witness :
  st_fs (final_state
    (serve Example.config (Example.calm [Example.data 8; Example.eof] false)
       Example.disk "/480p/movie.mp4")) !! "/srv/videos/movie.mp4"
  = Some (File true Example.film).
Proof.
  apply existing_entries_are_kept. vm_compute. reflexivity.
Defined.

Lemma count_starts_app a b : count_starts (a ++ b) = (count_starts a + count_starts b)%nat.
Proof. unfold count_starts. now rewrite filter_app, length_app. Qed.

Lemma count_starts_none evs :
  Forall (fun ev => is_start ev = false) evs -> count_starts evs = 0%nat.
Proof.
  unfold count_starts. induction 1 as [|ev evs Hev _ IH]; [reflexivity|].
  cbn. destruct (decide (is_start ev = true)); [congruence | exact IH].
Qed.

Lemma count_starts_cons ev evs :
  count_starts (ev :: evs)
  = ((if is_start ev then 1 else 0) + count_starts evs)%nat.
Proof.
  unfold count_starts. cbn. destruct (is_start ev) eqn:H.
  - now rewrite decide_True.
  - now rewrite decide_False by discriminate.
Qed.

Lemma count_starts_nil : count_starts [] = 0%nat.
Proof. reflexivity. Qed.

Lemma pump_events_no_start evs :
  Forall (fun ev => is_pump_event ev = true) evs ->
  Forall (fun ev => is_start ev = false) evs.
Proof.
  intros H. eapply Forall_impl; [exact H|]. intros []; cbn; congruence.
Qed.

(** X17. One encoder at most, and only on the request's own paths:
    whatever the request and the environment, the handler starts the
    encoder at most once, with the command line built from the source path,
    the width and the canonical path of this request; and the only file it
    ever removes is that canonical path. *)
Theorem encoder_runs_on_the_request_only config e fs reqPath :
  let tr := st_trace (final_state (serve config e fs reqPath)) in
  (count_starts tr <= 1)%nat /\
  (forall argv, In (EStart argv) tr ->
     exists width filename,
       validate config reqPath = Some (width, filename) /\
       argv = ffmpeg_argv (origFilePath config filename) width
                (transcodedFilePath config width filename)) /\
  (forall name, In (ERemove name) tr ->
     exists width filename,
       validate config reqPath = Some (width, filename) /\
       name = transcodedFilePath config width filename).
Proof.
  cbv zeta.
  destruct (validate config reqPath) as [[width filename]|] eqn:Hv.
  2: { destruct (serve_invalid config e fs reqPath Hv) as (code & msg & -> & _).
       unfold rejected, error_trace. cbn [final_state st_trace].
       split_and!;
         [ rewrite !count_starts_cons, count_starts_nil; cbn; lia
         | intros ? Hin; in_cases; discriminate
         | intros ? Hin; in_cases; discriminate ]. }
  branches Hv.
  7: { destruct (serve_generation_frame config e fs fs' reqPath width filename
                   Hv Ho Hsrc Hd Hmade Hs Hc Hfl Hpf Hsf)
         as (evs & tail & Htr & Hk & Hrm & Htail & _).
       rewrite <- (serve_generates config e fs reqPath width filename
                     Hv Ho Hsrc fs' Hd Hmade Hs Hc Hfl Hpf Hsf).
       rewrite Htr.
       assert (Hev : Forall (fun ev => is_start ev = false) evs)
         by now apply pump_events_no_start.
       assert (Htl : Forall (fun ev => is_start ev = false) tail)
         by (eapply Forall_impl; [exact Htail|]; cbn; tauto).
       split_and!.
       - rewrite !count_starts_app, (count_starts_none evs Hev), (count_starts_none tail Htl).
         cbn [generating st_trace].
         rewrite !count_starts_cons, count_starts_nil. cbn. lia.
       - intros argv [Hin|[Hin|Hin]%in_app_or]%in_app_or.
         + cbn in Hin. in_cases; try discriminate.
           match goal with H : EStart _ = EStart _ |- _ => injection H as <- end. eauto.
         + rewrite List.Forall_forall in Hev. specialize (Hev _ Hin). discriminate.
         + rewrite List.Forall_forall in Htl. specialize (Htl _ Hin). discriminate.
       - intros name [Hin|[Hin|Hin]%in_app_or]%in_app_or.
         + cbn in Hin. in_cases; discriminate.
         + rewrite (Hrm _ Hin). eauto.
         + rewrite List.Forall_forall in Htail. destruct (Htail _ Hin). discriminate. }
  all: unfold error_trace; cbn [final_state st_trace app]; split_and!;
    [ rewrite !count_starts_cons, count_starts_nil; cbn; lia
    | intros argv Hin; in_cases; try discriminate;
      match goal with H : EStart _ = EStart _ |- _ => injection H as <- end; eauto
    | intros name Hin; in_cases; discriminate ].
Qed.

(** ** [httpError] *)

(** X18. [httpError] on a response in any state: the message is
    appended to the body and the header map gets the plain-text content
    type, but a status line that is already on the wire stays, with the
    headers sent then; only on a fresh response do the given status and
    the plain-text headers go out. Files and processes are not touched. *)
Theorem httpError_keeps_sent_status code msg s :
  exists s',
    httpError code msg s = Done tt s' /\
    r_status (st_resp s')
      = Some (match r_status (st_resp s) with Some sent => sent | None => code end) /\
    r_sent (st_resp s')
      = match r_status (st_resp s) with
        | Some _ => r_sent (st_resp s)
        | None => <["Content-Type" := "text/plain; charset=utf-8"]> (r_header (st_resp s))
        end /\
    r_header (st_resp s')
      = <["Content-Type" := "text/plain; charset=utf-8"]> (r_header (st_resp s)) /\
    r_body (st_resp s') = r_body (st_resp s) ++ bytes_of msg /\
    st_trace s' = st_trace s ++ error_trace code msg /\
    st_fs s' = st_fs s /\ st_proc s' = st_proc s.
Proof.
  destruct s as [fs0 [hd0 [c0|] sent0 body0 fl0 sv0] proc0 pipe0 trace0];
    eexists; (split; [reflexivity|]); cbn; rewrite <- ?app_assoc; split_and!; reflexivity.
Qed.

(** ** [filepath.Clean] *)

(** X19. Cleaning a cleaned path changes nothing; the file name the
    handler goes on with is a fixed point of [Clean]. *)
Theorem Clean_is_idempotent path : Clean (Clean path) = Clean path.
Proof. apply Clean_idempotent. Qed.

(** ** [main] *)

(** X20. Start-up fails closed: the server does not listen, and no
    handler is registered, unless the configuration file was read and
    parsed; when it listens, it is on the host and port of that
    configuration, after the handler is registered on [/]. An unreadable
    file or an unparsable one ends the process with status 1. *)
Theorem startup_fails_closed b :
  let configFile := match flag_config b with Some name => name | None => "config.json" end in
  (forall addr, In (BListen addr) (fst (main b)) ->
     exists data config pre post,
       read_file b configFile = Some data /\
       unmarshal b data = Some config /\
       addr = Host config +:+ ":" +:+ Itoa (Port config) /\
       fst (main b) = pre ++ BListen addr :: post /\
       In (BHandleFunc "/") pre) /\
  (read_file b configFile = None \/
   (exists data, read_file b configFile = Some data /\ unmarshal b data = None) ->
   snd (main b) = Exit 1 /\
   Forall (fun ev => is_listen ev = false) (fst (main b)) /\
   ~ In (BHandleFunc "/") (fst (main b))).
Proof.
  cbv zeta. unfold main.
  destruct (read_file b _) as [data|] eqn:Hread.
  2: { split.
       - intros addr Hin. cbn in Hin. in_cases; discriminate.
       - intros _. cbn. split_and!; [reflexivity | repeat constructor |].
         intros Hin. in_cases; discriminate. }
  destruct (unmarshal b data) as [config|] eqn:Hparse.
  2: { split.
       - intros addr Hin. cbn in Hin. in_cases; discriminate.
       - intros _. cbn. split_and!; [reflexivity | repeat constructor |].
         intros Hin. in_cases; discriminate. }
  split.
  - intros addr Hin. exists data, config.
    assert (Haddr : addr = listen_addr config).
    { destruct (listen_fails b), (signal_arrives b), (shutdown_fails b);
        cbn in Hin; in_cases; try discriminate; congruence. }
    subst addr.
    destruct (listen_fails b), (signal_arrives b), (shutdown_fails b); cbn;
      eexists [_; _; _; _], _;
      (split_and!; first [reflexivity | exact Hparse | exact Hread | cbn; auto]).
  - intros [H|(data' & H1 & H2)]; [discriminate | congruence].
Qed.

Lemma startup_fails_closed_witness :
  snd (main {| flag_config := None; read_file := fun _ => None;
               unmarshal := fun _ => None; listen_fails := false;
               signal_arrives := true; shutdown_fails := false |}) = Exit 1.
Proof.
  apply (startup_fails_closed
           {| flag_config := None; read_file := fun _ => None;
              unmarshal := fun _ => None; listen_fails := false;
              signal_arrives := true; shutdown_fails := false |}).
  left. reflexivity.
Defined.
